(** * MPD: the music chunk, the DSD-over-USB packer and the sndfile reader

    A shallow embedding of

    - [MusicChunk::CheckFormat], [MusicChunk::Write] and
      [MusicChunk::Expand] (src/MusicChunk.cxx),
    - [SndfileInputStream::Read] (src/decoder/plugins/SndfileDecoderPlugin.cxx),
    - [pcm_dsd_to_usb] (declared in src/pcm/PcmDsdUsb.hxx),
    - the virtual I/O functions [sndfile_vio_get_filelen],
      [sndfile_vio_seek], [sndfile_vio_read], [sndfile_vio_write] and
      [sndfile_vio_tell], and [sndfile_stream_decode],
      [sndfile_handle_tag] and [sndfile_scan_stream] of the sndfile plugin,
    - [mpd_mpg123_open], [mpd_mpg123_file_decode] and
      [mpd_mpg123_scan_file] of the mpg123 plugin,

    followed by the properties of the buffer and codec contracts.  The
    plugins are embedded over the answers of their collaborators
    (libsndfile, libmpg123, the decoder API): a function takes the answers
    and gives the calls it makes, in order, with its result.

    Conventions.  A [size_t] is a 64-bit unsigned integer, held in [Z] and
    reduced by [size_t] after every operation that may leave the range.  An
    [assert] is live in the build without [NDEBUG] ([Debug]) and compiled
    out, together with its argument, in the build with it ([Release]).  A
    method of a C++ object takes the object and returns the object it
    leaves behind next to its result. *)

From Stdlib Require Import ZArith Bool Lia Sorted.
From Stdlib.Strings Require Byte.
From stdpp Require Import base tactics option list.

Local Open Scope Z_scope.

(** ** Outcomes of a call *)

(** A call returns, or stops at a failed [assert], or divides by zero. *)
Inductive outcome (A : Type) : Type :=
| Returns (a : A)
| AssertionFailed
| DivisionByZero.

Arguments Returns {A} a.
Arguments AssertionFailed {A}.
Arguments DivisionByZero {A}.

#[global] Instance outcome_ret : MRet outcome := fun _ a => Returns a.

#[global] Instance outcome_bind : MBind outcome := fun _ _ k m =>
  match m with
  | Returns a => k a
  | AssertionFailed => AssertionFailed
  | DivisionByZero => DivisionByZero
  end.

(** The two ways the sources are compiled: without and with [NDEBUG]. *)
Inductive Build : Set := Debug | Release.

(** [assert(e)]: evaluated only in the [Debug] build. *)
Definition assert (bld : Build) (e : outcome bool) : outcome unit :=
  match bld with
  | Release => Returns tt
  | Debug => b ← e; if b : bool then Returns tt else AssertionFailed
  end.

(** ** Machine integers *)

Definition SIZE_MAX : Z := 2 ^ 64 - 1.
Definition PTRDIFF_MAX : Z := 2 ^ 63 - 1.

(** Reduction of an integer to [size_t]. *)
Definition size_t (z : Z) : Z := z mod 2 ^ 64.

(** Unsigned division; the divisor zero has no result. *)
Definition size_div (a b : Z) : outcome Z :=
  if b =? 0 then DivisionByZero else Returns (a / b).

(** ** Audio formats *)

Module AudioFormat.

(** Modelled from the spec: AudioFormat.hxx is not among the sources.  An
    audio format is a sample rate, a sample encoding and a channel count;
    it is valid when every field is populated (sample rate > 0, channel
    count > 0, a supported encoding), and its frame size is
    channels x bytes per sample.  The encodings are those of MPD's
    [SampleFormat], of which the decoder plugins name [S16] and [S32];
    the sample rate and the channel count are unsigned, the latter an
    8-bit field. *)
Inductive SampleFormat : Set :=
| UNDEFINED | S8 | S16 | S24_P32 | S32 | FLOAT | DSD.

Record t : Set := Build_t {
  sample_rate : N;
  format : SampleFormat;
  channels : N
}.

#[global] Instance SampleFormat_eq_dec : EqDecision SampleFormat.
Proof. solve_decision. Defined.

#[global] Instance eq_dec : EqDecision t.
Proof. solve_decision. Defined.

(** Modelled from the spec: bytes per sample of an encoding. *)
Definition sample_format_size (f : SampleFormat) : Z :=
  match f with
  | UNDEFINED => 0
  | S8 => 1
  | S16 => 2
  | S24_P32 => 4
  | S32 => 4
  | FLOAT => 4
  | DSD => 1
  end.

(** Modelled from the spec: [AudioFormat::IsValid], every field
    populated. *)
Definition IsValid (af : t) : bool :=
  (0 <? sample_rate af)%N
  && negb (bool_decide (format af = UNDEFINED))
  && (0 <? channels af)%N && (channels af <=? 255)%N.

Definition GetSampleSize (af : t) : Z := sample_format_size (format af).

(** Modelled from the spec: [AudioFormat::GetFrameSize],
    frame_size = channels x bytes_per_sample. *)
Definition GetFrameSize (af : t) : Z :=
  GetSampleSize af * Z.of_N (channels af).

End AudioFormat.

Abbreviation AudioFormat := AudioFormat.t.

(** ** The music chunk (src/MusicChunk.cxx) *)

Module MusicChunk.

(** A [float] is only ever copied here: it is held as its bit pattern. *)
Definition float : Set := Z.

(** The fields of the chunk that [Write] and [Expand] read or write; they
    are declared in MusicChunk.hxx, which is not among the sources.
    [length] is taken as wide as a [size_t], [bit_rate] is the [uint16_t]
    passed to [Write], and [audio_format] is read and written by the
    [Debug] build only.  The bytes of [data] are filled by the caller
    through the region that [Write] hands out; only [sizeof(data)] matters
    to the two methods. *)
Record t : Set := Build_t {
  length : Z;
  bit_rate : Z;
  times : float;
  audio_format : AudioFormat
}.

(** [WritableBuffer<void>]: the null buffer, or a region of [data] given
    by the byte offset of its start and its size in bytes. *)
Inductive WritableBuffer : Set :=
| Null
| Region (offset size : Z).

Definition set_stamp (c : t) (_bit_rate : Z) (data_time : float) : t :=
  {| length := length c; bit_rate := _bit_rate; times := data_time;
     audio_format := audio_format c |}.

Definition set_audio_format (c : t) (af : AudioFormat) : t :=
  {| length := length c; bit_rate := bit_rate c; times := times c;
     audio_format := af |}.

Definition set_length (c : t) (l : Z) : t :=
  {| length := l; bit_rate := bit_rate c; times := times c;
     audio_format := audio_format c |}.

Section Methods.

(** [sizeof(data)], fixed by MusicChunk.hxx, which is not among the
    sources. *)
Variable sizeof_data : Z.

(** [MusicChunk::CheckFormat]; it exists in the [Debug] build only, so
    its own [assert] is live. *)
Definition CheckFormat (c : t) (other_format : AudioFormat)
  : outcome bool :=
  _ ← assert Debug (Returns (AudioFormat.IsValid other_format));
  Returns ((length c =? 0)
           || bool_decide (audio_format c = other_format)).

(** [MusicChunk::Write]. *)
Definition Write (bld : Build) (c : t) (af : AudioFormat)
    (data_time : float) (_bit_rate : Z)
  : outcome (WritableBuffer * t) :=
  _ ← assert bld (CheckFormat c af);
  _ ← assert bld (Returns ((length c =? 0)
                            || AudioFormat.IsValid (audio_format c)));
  let c1 :=
    if length c =? 0 then set_stamp c _bit_rate data_time else c in
  let frame_size := AudioFormat.GetFrameSize af in
  num_frames ← size_div (size_t (sizeof_data - length c1)) frame_size;
  if num_frames =? 0 then Returns (Null, c1)
  else
    let c2 :=
      match bld with
      | Debug => set_audio_format c1 af
      | Release => c1
      end in
    Returns (Region (length c2) (size_t (num_frames * frame_size)), c2).

(** [MusicChunk::Expand]. *)
Definition Expand (bld : Build) (c : t) (af : AudioFormat) (_length : Z)
  : outcome (bool * t) :=
  let frame_size := AudioFormat.GetFrameSize af in
  _ ← assert bld (Returns (size_t (length c + _length) <=? sizeof_data));
  _ ← assert bld (Returns (bool_decide (audio_format c = af)));
  let c1 := set_length c (size_t (length c + _length)) in
  Returns (sizeof_data <? size_t (length c1 + frame_size), c1).

(** *** Sequences of calls by one producer *)

(** The producer's calls on one chunk. *)
Inductive call : Set :=
| Reserve (af : AudioFormat) (data_time : float) (_bit_rate : Z)
| Commit (af : AudioFormat) (_length : Z).

(** The chunk together with the number of bytes handed out by [Write]
    and not committed yet (what the producer may still pass to
    [Expand]). *)
Record session : Set := Build_session {
  chunk : t;
  reserved : Z
}.

Definition buffer_size (b : WritableBuffer) : Z :=
  match b with
  | Null => 0
  | Region _ size => size
  end.

Definition step (bld : Build) (s : session) (k : call)
  : outcome session :=
  match k with
  | Reserve af data_time _bit_rate =>
      '(b, c) ← Write bld (chunk s) af data_time _bit_rate;
      Returns {| chunk := c; reserved := buffer_size b |}
  | Commit af _length =>
      '(_, c) ← Expand bld (chunk s) af _length;
      Returns {| chunk := c; reserved := reserved s - _length |}
  end.

(** The precondition of a call: a commit stays within what was
    reserved. *)
Definition call_pre (s : session) (k : call) : Prop :=
  match k with
  | Reserve _ _ _ => True
  | Commit _ _length => 0 <= _length <= reserved s
  end.

(** The sessions a sequence of calls goes through, the first one
    included; the sequence ends where a call does not return. *)
Fixpoint trace (bld : Build) (s : session) (ks : list call)
  : list session :=
  match ks with
  | [] => [s]
  | k :: ks' =>
      s :: match step bld s k with
           | Returns s' => trace bld s' ks'
           | _ => []
           end
  end.

(** Every call of the sequence that is reached meets its
    precondition. *)
Fixpoint calls_pre (bld : Build) (s : session) (ks : list call) : Prop :=
  match ks with
  | [] => True
  | k :: ks' =>
      call_pre s k /\
      match step bld s k with
      | Returns s' => calls_pre bld s' ks'
      | _ => True
      end
  end.

End Methods.

(** The chunk after the stamping step of [Write]. *)
Definition stamped (c : t) (data_time : float) (_bit_rate : Z) : t :=
  if length c =? 0 then set_stamp c _bit_rate data_time else c.

(** What the two assertions of [Write] ask of the chunk and of a valid
    format [af]. *)
Definition checks_pass (bld : Build) (c : t) (af : AudioFormat) : Prop :=
  match bld with
  | Release => True
  | Debug => length c = 0 \/ audio_format c = af
  end.

(** A session within the capacity [sizeof_data]. *)
Definition session_ok (sizeof_data : Z) (s : session) : Prop :=
  0 <= length (chunk s) /\ 0 <= reserved s /\
  length (chunk s) + reserved s <= sizeof_data.

End MusicChunk.

Abbreviation MusicChunk := MusicChunk.t.

(** ** The sndfile stream reader
    (src/decoder/plugins/SndfileDecoderPlugin.cxx) *)

Module Sndfile.

Section Reader.

(** The decoder and the input stream behind a reader, and
    [decoder_read_full] of the decoder API, are not among the sources:
    they are parameters.  [decoder_read_full d is size] tells whether
    all [size] bytes were read, and gives the bytes it left in the
    caller's buffer and the decoder and stream it leaves behind. *)
Variables Decoder InputStream : Type.
Variable decoder_read_full :
  Decoder -> InputStream -> Z ->
  bool * list Byte.byte * (Decoder * InputStream).

Record SndfileInputStream : Type := Build_SndfileInputStream {
  decoder : Decoder;
  is_ : InputStream  (* the member [is] *)
}.

(** [SndfileInputStream::Read]: the number of bytes reported to
    libsndfile, the bytes in [buffer], and the reader afterwards. *)
Definition Read (sis : SndfileInputStream) (size : Z)
  : Z * list Byte.byte * SndfileInputStream :=
  let '(ok, buffer, (d, i)) :=
    decoder_read_full (decoder sis) (is_ sis) size in
  (if ok then size else 0, buffer, {| decoder := d; is_ := i |}).

End Reader.

Arguments decoder {Decoder InputStream} _.
Arguments is_ {Decoder InputStream} _.
Arguments Read {Decoder InputStream} decoder_read_full sis size.

End Sndfile.

(** ** The DSD-over-USB packer (src/pcm/PcmDsdUsb.hxx) *)

Module PcmDsdUsb.

(** Modelled from the spec: PcmBuffer is not among the sources.  The
    scratch buffer is an owned region that grows, and never shrinks, to
    satisfy the largest request seen; its contents are not preserved
    across a growth.  It is held as the list of its 32-bit words. *)
Definition PcmBuffer : Set := list Z.

(** Modelled from the spec: get storage of at least [n] words.  [fresh]
    is what newly allocated storage happens to contain. *)
Definition PcmBuffer_Get (buffer : PcmBuffer) (n : nat) (fresh : list Z)
  : PcmBuffer :=
  if decide (n ≤ length buffer)%nat then buffer else resize n 0 fresh.

Definition uint8 (b : Byte.byte) : Z := Z.of_N (Byte.to_N b).

(** Modelled from the spec: the marker byte of a DSD frame, [0x05] for
    even-indexed frames and [0xFA] for odd-indexed ones. *)
Definition marker_byte (frame : nat) : Z :=
  if Nat.even frame then 0x05 else 0xFA.

(** Modelled from the spec: output word =
    (marker_byte << 16) | (dsd_byte << 8) | 0x00. *)
Definition dop_word (marker : Z) (dsd_byte : Byte.byte) : Z :=
  Z.lor (Z.lor (Z.shiftl marker 16) (Z.shiftl (uint8 dsd_byte) 8)) 0x00.

(** Modelled from the spec: for every group of [channels] input bytes
    (one DSD frame), [channels] output words carrying the marker of the
    frame; [frame] is the index of the first frame of [src]. *)
Fixpoint pack_frames (channels frame num_frames : nat)
    (src : list Byte.byte) : list Z :=
  match num_frames with
  | O => []
  | S n =>
      (dop_word (marker_byte frame) <$> take channels src)
      ++ pack_frames channels (S frame) n (drop channels src)
  end.

(** Writing words into storage from index [i] on. *)
Fixpoint store (dest : list Z) (i : nat) (ws : list Z) : list Z :=
  match ws with
  | [] => dest
  | w :: ws' => store (<[i:=w]> dest) (S i) ws'
  end.

Inductive error : Set := InvalidArgument.

(** Modelled from the spec: the body of [pcm_dsd_to_usb] is not among the
    sources, only its declaration.  A length of [src] that is not a
    multiple of [channels] fails with [InvalidArgument] and gives no
    view; otherwise the buffer is grown to hold one word per input byte,
    the words are written into it, and the result is the view of these
    words in the buffer.  The result comes with the buffer left
    behind. *)
Definition pcm_dsd_to_usb (buffer : PcmBuffer) (fresh : list Z)
    (channels : nat) (src : list Byte.byte)
  : (error + list Z) * PcmBuffer :=
  if decide (length src `mod` channels = 0)%nat then
    let num_frames := (length src / channels)%nat in
    let n := (channels * num_frames)%nat in
    let dest := PcmBuffer_Get buffer n fresh in
    let dest' := store dest 0 (pack_frames channels 0 num_frames src) in
    (inr (take n dest'), dest')
  else (inl InvalidArgument, buffer).

(** The marker byte and the data byte carried by an output word. *)
Definition word_marker (w : Z) : Z := Z.land (Z.shiftr w 16) 0xFF.
Definition word_data (w : Z) : Z := Z.land (Z.shiftr w 8) 0xFF.

End PcmDsdUsb.

(** ** The virtual I/O of the sndfile plugin
    (src/decoder/plugins/SndfileDecoderPlugin.cxx) *)

Module SndfileVio.

Definition INT64_MIN : Z := - 2 ^ 63.
Definition INT64_MAX : Z := 2 ^ 63 - 1.

(** Conversion to [sf_count_t], libsndfile's 64-bit signed count. *)
Definition sf_count_t (z : Z) : Z := (z + 2 ^ 63) mod 2 ^ 64 - 2 ^ 63.

(** The [whence] values of <stdio.h>. *)
Definition SEEK_SET : Z := 0.
Definition SEEK_CUR : Z := 1.
Definition SEEK_END : Z := 2.

(** What the functions write to the log. *)
Inductive log_entry : Set :=
| Seek_failed.  (* LogError(error, "Seek failed") *)

Section Vio.

(** The decoder, the input stream and their methods are not among the
    sources: they are parameters.  [offset_type z] is the conversion of an
    integer to InputStream's [offset_type]; [LockSeek stream offset] tells
    whether the seek succeeded and gives the stream it leaves behind. *)
Variables Decoder InputStream : Type.
Variable decoder_read_full :
  Decoder -> InputStream -> Z ->
  bool * list Byte.byte * (Decoder * InputStream).
Variable offset_type : Z -> Z.
Variable KnownSize : InputStream -> bool.
Variable GetSize : InputStream -> Z.
Variable GetOffset : InputStream -> Z.
Variable LockSeek : InputStream -> Z -> bool * InputStream.

Local Abbreviation SndfileInputStream :=
  (Sndfile.SndfileInputStream Decoder InputStream).

(** [sndfile_vio_get_filelen]. *)
Definition sndfile_vio_get_filelen (sis : SndfileInputStream) : Z :=
  let stream := Sndfile.is_ sis in
  if negb (KnownSize stream) then -1
  else sf_count_t (GetSize stream).

(** The offset [sndfile_vio_seek] asks the stream for: the [switch] on
    [whence], with [None] where it returns -1 at once. *)
Definition seek_target (_offset whence : Z) (sis : SndfileInputStream)
  : option Z :=
  let stream := Sndfile.is_ sis in
  let offset := offset_type _offset in
  if whence =? SEEK_SET then Some offset
  else if whence =? SEEK_CUR then
    Some (offset_type (offset + GetOffset stream))
  else if whence =? SEEK_END then
    if negb (KnownSize stream) then None
    else Some (offset_type (offset + GetSize stream))
  else None.

(** [sndfile_vio_seek]: the result, the reader afterwards and what was
    logged. *)
Definition sndfile_vio_seek (_offset whence : Z) (sis : SndfileInputStream)
  : Z * SndfileInputStream * list log_entry :=
  match seek_target _offset whence sis with
  | None => (-1, sis, [])
  | Some offset =>
      let '(ok, is') := LockSeek (Sndfile.is_ sis) offset in
      let sis' :=
        {| Sndfile.decoder := Sndfile.decoder sis; Sndfile.is_ := is' |} in
      if ok : bool then (sf_count_t (GetOffset is'), sis', [])
      else (-1, sis', [Seek_failed])
  end.

(** [sndfile_vio_read]: [count] is converted to the [size_t] that [Read]
    takes, and the result of [Read] back to [sf_count_t]. *)
Definition sndfile_vio_read (count : Z) (sis : SndfileInputStream)
  : Z * list Byte.byte * SndfileInputStream :=
  let '(n, buffer, sis') :=
    Sndfile.Read decoder_read_full sis (size_t count) in
  (sf_count_t n, buffer, sis').

(** [sndfile_vio_write]. *)
Definition sndfile_vio_write (count : Z) (sis : SndfileInputStream) : Z :=
  -1.

(** [sndfile_vio_tell]. *)
Definition sndfile_vio_tell (sis : SndfileInputStream) : Z :=
  sf_count_t (GetOffset (Sndfile.is_ sis)).

End Vio.

Arguments sndfile_vio_get_filelen {Decoder InputStream} KnownSize GetSize sis.
Arguments seek_target {Decoder InputStream}
  offset_type KnownSize GetSize GetOffset _offset whence sis.
Arguments sndfile_vio_seek {Decoder InputStream}
  offset_type KnownSize GetSize GetOffset LockSeek _offset whence sis.
Arguments sndfile_vio_read {Decoder InputStream} decoder_read_full count sis.
Arguments sndfile_vio_write {Decoder InputStream} count sis.
Arguments sndfile_vio_tell {Decoder InputStream} GetOffset sis.

End SndfileVio.

(** ** Concrete formats and chunks *)

Module Example.

(** 16-bit stereo at 44100 Hz: frames of 4 bytes. *)
Definition cd_stereo : AudioFormat :=
  {| AudioFormat.sample_rate := 44100; AudioFormat.format := AudioFormat.S16;
     AudioFormat.channels := 2 |}.

(** 8-bit mono at 8000 Hz: frames of 1 byte. *)
Definition mono_8 : AudioFormat :=
  {| AudioFormat.sample_rate := 8000; AudioFormat.format := AudioFormat.S8;
     AudioFormat.channels := 1 |}.

Definition no_format : AudioFormat :=
  {| AudioFormat.sample_rate := 0; AudioFormat.format := AudioFormat.UNDEFINED;
     AudioFormat.channels := 0 |}.

Definition empty_chunk : MusicChunk :=
  {| MusicChunk.length := 0; MusicChunk.bit_rate := 0;
     MusicChunk.times := 0; MusicChunk.audio_format := no_format |}.

(** A chunk holding [l] bytes of CD audio, stamped with bit rate 128 and
    time 7. *)
Definition cd_chunk (l : Z) : MusicChunk :=
  {| MusicChunk.length := l; MusicChunk.bit_rate := 128;
     MusicChunk.times := 7; MusicChunk.audio_format := cd_stereo |}.

Definition fresh_session : MusicChunk.session :=
  {| MusicChunk.chunk := empty_chunk; MusicChunk.reserved := 0 |}.

(** A producer filling a chunk of 4096 bytes in two rounds. *)
Definition two_rounds : list MusicChunk.call :=
  [ MusicChunk.Reserve cd_stereo 7 128; MusicChunk.Commit cd_stereo 4088;
    MusicChunk.Reserve cd_stereo 9 320; MusicChunk.Commit cd_stereo 8 ].

End Example.

(** ** The decoder of the sndfile plugin
    (src/decoder/plugins/SndfileDecoderPlugin.cxx) *)

Module DecoderAPI.

(** The commands of the decoder API (DecoderCommand.hxx is not among the
    sources): the plugins tell [NONE] and [SEEK] from any other one. *)
Inductive DecoderCommand : Set := NONE | SEEK | OTHER.

End DecoderAPI.

Module SndfileDecoder.

Import DecoderAPI.

(** The fields of libsndfile's [SF_INFO] that the plugin reads. *)
Record SF_INFO : Set := Build_SF_INFO {
  frames : Z;
  samplerate : Z;
  channels : Z;
  seekable : Z
}.

(** libsndfile's string ids and MPD's tag types, as far as
    [sndfile_tags] names them. *)
Inductive sf_str : Set :=
| SF_STR_TITLE | SF_STR_ARTIST | SF_STR_COMMENT | SF_STR_DATE
| SF_STR_ALBUM | SF_STR_TRACKNUMBER | SF_STR_GENRE.

Inductive TagType : Set :=
| TAG_TITLE | TAG_ARTIST | TAG_COMMENT | TAG_DATE
| TAG_ALBUM | TAG_TRACK | TAG_GENRE.

(** The calls the plugin makes on libsndfile, on the decoder API, on the
    tag handler and on the log, with the arguments it passes.  The time
    given to [decoder_initialized] is the quotient of two floats
    ([frame_to_time]): the call is recorded with the frames and the
    format that the quotient is taken of. *)
Inductive event : Set :=
| LogWarning_open_failed
| LogError_audio_format
| FormatWarning_invalid_sample_rate
| decoder_initialized (af : AudioFormat) (seekable frames : Z)
| sf_readf_int (frames : Z)
| decoder_data (length kbit_rate : Z)
| decoder_seek_where_frame
| sf_seek (frames : Z)
| decoder_seek_error
| decoder_command_finished
| tag_handler_invoke_duration (seconds : Z)
| sf_get_string (str : sf_str)
| tag_handler_invoke_tag (tag : TagType) (value : list Byte.byte)
| sf_close.

Definition is_sf_close (e : event) : bool :=
  match e with sf_close => true | _ => false end.

Definition is_decoder_data (e : event) : bool :=
  match e with decoder_data _ _ => true | _ => false end.

(** How far a function got with the answers it was given: it returned,
    it waits for the answers of a further round of its loop, or it
    divided by zero. *)
Inductive status : Set := Returned | Waiting | DividedByZero.

(** What the collaborators answer in one round of the decode loop:
    [sf_readf_int], [decoder_data], and for a seek
    [decoder_seek_where_frame] and [sf_seek]. *)
Record round : Set := Build_round {
  num_frames : Z;
  cmd : DecoderCommand;
  where_frame : Z;
  seek_result : Z
}.

(** [sizeof(buffer)] for [int buffer[4096]], an [int] being 4 bytes. *)
Definition sizeof_buffer : Z := 4096 * 4.

(** [sndfile_tags]. *)
Definition sndfile_tags : list (sf_str * TagType) :=
  [ (SF_STR_TITLE, TAG_TITLE); (SF_STR_ARTIST, TAG_ARTIST);
    (SF_STR_COMMENT, TAG_COMMENT); (SF_STR_DATE, TAG_DATE);
    (SF_STR_ALBUM, TAG_ALBUM); (SF_STR_TRACKNUMBER, TAG_TRACK);
    (SF_STR_GENRE, TAG_GENRE) ].

Section Plugin.

(** [audio_format_init_checked] and [audio_valid_sample_rate]
    (CheckAudioFormat) are not among the sources: they are parameters;
    the first gives the format it has filled in, or nothing when it
    fails. *)
Variable audio_format_init_checked :
  Z -> AudioFormat.SampleFormat -> Z -> option AudioFormat.
Variable audio_valid_sample_rate : Z -> bool.

(** The [do ... while] loop of [sndfile_stream_decode], one round for
    each answer of the script. *)
Fixpoint decode_loop (frame_size read_frames : Z) (script : list round)
  : list event * status :=
  match script with
  | [] => ([], Waiting)
  | r :: rest =>
      if num_frames r <=? 0 then ([sf_readf_int read_frames], Returned)
      else
        let data := decoder_data (size_t (num_frames r * frame_size)) 0 in
        let '(seeking, cmd') :=
          match cmd r with
          | SEEK =>
              ([ decoder_seek_where_frame;
                 sf_seek (SndfileVio.sf_count_t (where_frame r));
                 if seek_result r <? 0 then decoder_seek_error
                 else decoder_command_finished ],
               NONE)
          | c => ([], c)
          end in
        let round_events := sf_readf_int read_frames :: data :: seeking in
        match cmd' with
        | NONE =>
            let '(events, st) := decode_loop frame_size read_frames rest in
            (round_events ++ events, st)
        | _ => (round_events, Returned)
        end
  end.

(** [sndfile_stream_decode]: [opened] is what [sf_open_virtual] gives,
    nothing for a null handle. *)
Definition sndfile_stream_decode (opened : option SF_INFO)
    (script : list round) : list event * status :=
  match opened with
  | None => ([LogWarning_open_failed], Returned)
  | Some info =>
      match audio_format_init_checked (samplerate info) AudioFormat.S32
              (channels info) with
      | None => ([LogError_audio_format], Returned)
      | Some audio_format =>
          let init :=
            decoder_initialized audio_format (seekable info) (frames info) in
          let frame_size := AudioFormat.GetFrameSize audio_format in
          match size_div sizeof_buffer frame_size with
          | Returns read_frames =>
              let '(events, st) :=
                decode_loop frame_size read_frames script in
              (init :: events
                 ++ match st with Returned => [sf_close] | _ => [] end,
               st)
          | _ => ([init], DividedByZero)
          end
      end
  end.

(** [sndfile_handle_tag]; [strings] is what [sf_get_string] gives, nothing
    for a null pointer. *)
Definition sndfile_handle_tag (strings : sf_str -> option (list Byte.byte))
    (str : sf_str) (tag : TagType) : list event :=
  sf_get_string str ::
  match strings str with
  | Some value => [tag_handler_invoke_tag tag value]
  | None => []
  end.

(** [sndfile_scan_stream]; the quotient of the two signed integers
    truncates. *)
Definition sndfile_scan_stream (opened : option SF_INFO)
    (strings : sf_str -> option (list Byte.byte))
  : bool * list event * status :=
  match opened with
  | None => (false, [], Returned)
  | Some info =>
      if negb (audio_valid_sample_rate (samplerate info)) then
        (false, [sf_close; FormatWarning_invalid_sample_rate], Returned)
      else if samplerate info =? 0 then (false, [], DividedByZero)
      else
        (true,
         tag_handler_invoke_duration
           (SndfileVio.sf_count_t (frames info ÷ samplerate info))
         :: flat_map (fun i => sndfile_handle_tag strings i.1 i.2)
              sndfile_tags
         ++ [sf_close],
         Returned)
  end.

End Plugin.

(** A round that ends the decode loop: no frames were read, or the
    command is neither [NONE] nor [SEEK]. *)
Definition stops (r : round) : bool :=
  (num_frames r <=? 0)
  || match cmd r with OTHER => true | _ => false end.

(** The tags an event list reports, in order. *)
Definition reported_tags (events : list event)
  : list (TagType * list Byte.byte) :=
  omap (fun e => match e with
                 | tag_handler_invoke_tag tag value => Some (tag, value)
                 | _ => None
                 end) events.

End SndfileDecoder.

(** ** The mpg123 plugin (src/unnamed/part_000) *)

Module Mpg123Decoder.

Import DecoderAPI.

(** Values of <mpg123.h>. *)
Definition MPG123_OK : Z := 0.
Definition MPG123_DONE : Z := -12.
Definition MPG123_ENC_SIGNED_16 : Z := 0xD0.

Inductive mpg123_vbr : Set := MPG123_CBR | MPG123_VBR | MPG123_ABR.

(** The fields of [struct mpg123_frameinfo] that the plugin reads. *)
Record mpg123_frameinfo : Set := Build_mpg123_frameinfo {
  vbr : mpg123_vbr;
  bitrate : Z;
  abr_rate : Z
}.

(** Conversion to [off_t], a 64-bit signed integer. *)
Definition off_t (z : Z) : Z := SndfileVio.sf_count_t z.

(** The calls the plugin makes on libmpg123, on the decoder API, on the
    tag handler and on the log.  The times given to [decoder_initialized]
    and [decoder_timestamp] are quotients of floats: the calls are
    recorded with the sample counts the quotients are taken of.  The bit
    rate of [decoder_data] is recorded as the [int] that is passed. *)
Inductive event : Set :=
| mpg123_new
| FormatError_new
| mpg123_open
| FormatWarning_open (error : Z)
| mpg123_getformat
| FormatWarning_getformat (error : Z)
| FormatWarning_encoding (encoding : Z)
| LogError_audio_format
| mpg123_length
| decoder_initialized (af : AudioFormat) (num_samples : Z)
| mpg123_info
| mpg123_read
| FormatWarning_read (error : Z)
| decoder_data (nbytes kbit_rate : Z)
| decoder_seek_where_frame
| mpg123_seek (sample : Z)
| decoder_seek_error
| decoder_command_finished
| decoder_timestamp (sample : Z)
| mpg123_delete
| tag_handler_invoke_duration (seconds : Z).

Definition is_mpg123_delete (e : event) : bool :=
  match e with mpg123_delete => true | _ => false end.

Definition is_mpg123_info (e : event) : bool :=
  match e with mpg123_info => true | _ => false end.

(** The calls on libmpg123 among the events. *)
Definition is_library_call (e : event) : bool :=
  match e with
  | mpg123_new | mpg123_open | mpg123_getformat | mpg123_length
  | mpg123_info | mpg123_read | mpg123_seek _ | mpg123_delete => true
  | _ => false
  end.

Inductive status : Set := Returned | Waiting | DividedByZero.

(** What libmpg123 answers when a file is opened and examined:
    whether [mpg123_new] gave a handle, the results of [mpg123_open] and
    [mpg123_getformat], of [mpg123_length], and of [mpg123_info], which is
    nothing when it fails. *)
Record file_answers : Set := Build_file_answers {
  new_ok : bool;
  open_error : Z;
  getformat_error : Z;
  rate : Z;
  channels : Z;
  encoding : Z;
  num_samples : Z;
  info : option mpg123_frameinfo
}.

(** What the collaborators answer in one round of the decode loop:
    [mpg123_read], [mpg123_info], [decoder_data], and for a seek
    [decoder_seek_where_frame] and [mpg123_seek]. *)
Record round : Set := Build_round {
  read_error : Z;
  nbytes : Z;
  info_again : option mpg123_frameinfo;
  cmd : DecoderCommand;
  where_frame : Z;
  seek_result : Z
}.

(** What the decode loop keeps of [info]: [vbr] and [bitrate]. *)
Record rate_state : Set := Build_rate_state {
  cur_vbr : mpg123_vbr;
  cur_bitrate : Z
}.

(** [info] after the first [mpg123_info] and the [switch] on [info.vbr]. *)
Definition initial_rate (answer : option mpg123_frameinfo) : rate_state :=
  match answer with
  | None => {| cur_vbr := MPG123_CBR; cur_bitrate := 0 |}
  | Some i =>
      match vbr i with
      | MPG123_ABR => {| cur_vbr := MPG123_ABR; cur_bitrate := abr_rate i |}
      | MPG123_CBR => {| cur_vbr := MPG123_CBR; cur_bitrate := bitrate i |}
      | MPG123_VBR => {| cur_vbr := MPG123_VBR; cur_bitrate := 0 |}
      end
  end.

(** [info] after the [mpg123_info] of a round: what the library filled
    in, or the bit rate 0 when it failed (a failed call is taken to leave
    [info.vbr] alone). *)
Definition updated_rate (st : rate_state)
    (answer : option mpg123_frameinfo) : rate_state :=
  match answer with
  | None => {| cur_vbr := cur_vbr st; cur_bitrate := 0 |}
  | Some i => {| cur_vbr := vbr i; cur_bitrate := bitrate i |}
  end.

Section Plugin.

(** [audio_format_init_checked] (CheckAudioFormat) is not among the
    sources: it is a parameter that gives the format it has filled in, or
    nothing when it fails. *)
Variable audio_format_init_checked :
  Z -> AudioFormat.SampleFormat -> Z -> option AudioFormat.

(** [mpd_mpg123_open]: the format on success, and the calls made. *)
Definition mpd_mpg123_open (a : file_answers)
  : option AudioFormat * list event :=
  if negb (open_error a =? MPG123_OK) then
    (None, [mpg123_open; FormatWarning_open (open_error a)])
  else if negb (getformat_error a =? MPG123_OK) then
    (None, [mpg123_open; mpg123_getformat;
            FormatWarning_getformat (getformat_error a)])
  else if negb (encoding a =? MPG123_ENC_SIGNED_16) then
    (None, [mpg123_open; mpg123_getformat;
            FormatWarning_encoding (encoding a)])
  else
    match audio_format_init_checked (rate a) AudioFormat.S16 (channels a) with
    | None => (None, [mpg123_open; mpg123_getformat; LogError_audio_format])
    | Some audio_format =>
        (Some audio_format, [mpg123_open; mpg123_getformat])
    end.

(** The decoder main loop of [mpd_mpg123_file_decode]. *)
Fixpoint decode_loop (st : rate_state) (script : list round)
  : list event * status :=
  match script with
  | [] => ([], Waiting)
  | r :: rest =>
      if negb (read_error r =? MPG123_OK) then
        (mpg123_read ::
         (if negb (read_error r =? MPG123_DONE)
          then [FormatWarning_read (read_error r)] else []),
         Returned)
      else
        let '(asking, st') :=
          match cur_vbr st with
          | MPG123_CBR => ([], st)
          | _ => ([mpg123_info], updated_rate st (info_again r))
          end in
        let data := decoder_data (nbytes r) (cur_bitrate st') in
        let '(seeking, cmd') :=
          match cmd r with
          | SEEK =>
              (decoder_seek_where_frame
               :: mpg123_seek (off_t (where_frame r))
               :: (if seek_result r <? 0 then [decoder_seek_error]
                   else [decoder_command_finished;
                         decoder_timestamp (seek_result r)]),
               NONE)
          | c => ([], c)
          end in
        let round_events := mpg123_read :: asking ++ data :: seeking in
        match cmd' with
        | NONE =>
            let '(events, s) := decode_loop st' rest in
            (round_events ++ events, s)
        | _ => (round_events, Returned)
        end
  end.

(** [mpd_mpg123_file_decode]. *)
Definition mpd_mpg123_file_decode (a : file_answers) (script : list round)
  : list event * status :=
  if negb (new_ok a) then ([mpg123_new; FormatError_new], Returned)
  else
    match mpd_mpg123_open a with
    | (None, opening) => (mpg123_new :: opening ++ [mpg123_delete], Returned)
    | (Some audio_format, opening) =>
        let '(events, s) := decode_loop (initial_rate (info a)) script in
        (mpg123_new :: opening
           ++ [mpg123_length;
               decoder_initialized audio_format (num_samples a);
               mpg123_info]
           ++ events
           ++ match s with Returned => [mpg123_delete] | _ => [] end,
         s)
    end.

(** [mpd_mpg123_scan_file]; the quotient of the positive sample count by
    the sample rate truncates. *)
Definition mpd_mpg123_scan_file (a : file_answers)
  : bool * list event * status :=
  if negb (new_ok a) then (false, [mpg123_new; FormatError_new], Returned)
  else
    match mpd_mpg123_open a with
    | (None, opening) =>
        (false, mpg123_new :: opening ++ [mpg123_delete], Returned)
    | (Some audio_format, opening) =>
        let scanned := mpg123_new :: opening ++ [mpg123_length] in
        if num_samples a <=? 0 then
          (false, scanned ++ [mpg123_delete], Returned)
        else
          let sample_rate := Z.of_N (AudioFormat.sample_rate audio_format) in
          if sample_rate =? 0 then
            (false, scanned ++ [mpg123_delete], DividedByZero)
          else
            (true,
             scanned ++ [mpg123_delete;
                         tag_handler_invoke_duration
                           (num_samples a ÷ sample_rate)],
             Returned)
    end.

End Plugin.

End Mpg123Decoder.

(** ** A concrete input stream *)

Module ExampleStream.

(** A stream over [len] bytes held in memory, read up to [pos]; a stream
    of unknown size has no [len]. *)
Record mem_stream : Set := Build_mem_stream {
  pos : Z;
  len : option Z
}.

Definition KnownSize (s : mem_stream) : bool :=
  match len s with Some _ => true | None => false end.

Definition GetSize (s : mem_stream) : Z :=
  match len s with Some l => l | None => 0 end.

Definition GetOffset (s : mem_stream) : Z := pos s.

(** Seeking succeeds within the bytes of the stream. *)
Definition LockSeek (s : mem_stream) (offset : Z) : bool * mem_stream :=
  if (0 <=? offset) && (offset <=? GetSize s)
  then (true, {| pos := offset; len := len s |})
  else (false, s).

(** Reading succeeds when [size] bytes are left. *)
Definition decoder_read_full (d : unit) (s : mem_stream) (size : Z)
  : bool * list Byte.byte * (unit * mem_stream) :=
  if pos s + size <=? GetSize s
  then (true, replicate (Z.to_nat size) Byte.x00,
        (d, {| pos := pos s + size; len := len s |}))
  else (false, [], (d, s)).

Definition offset_type (z : Z) : Z := z.

Definition reader (p : Z) (l : option Z)
  : Sndfile.SndfileInputStream unit mem_stream :=
  {| Sndfile.decoder := tt; Sndfile.is_ := {| pos := p; len := l |} |}.

End ExampleStream.

(** ** Concrete answers of the collaborators of the plugins *)

Module ExamplePlugin.

(** A format check that accepts what the modelled [IsValid] accepts. *)
Definition audio_format_init_checked (rate : Z)
    (format : AudioFormat.SampleFormat) (channels : Z)
  : option AudioFormat :=
  let af := {| AudioFormat.sample_rate := Z.to_N rate;
               AudioFormat.format := format;
               AudioFormat.channels := Z.to_N channels |} in
  if AudioFormat.IsValid af then Some af else None.

Definition audio_valid_sample_rate (rate : Z) : bool := 0 <? rate.

(** Ten seconds of seekable stereo at 44100 Hz. *)
Definition wav_info : SndfileDecoder.SF_INFO :=
  {| SndfileDecoder.frames := 441000; SndfileDecoder.samplerate := 44100;
     SndfileDecoder.channels := 2; SndfileDecoder.seekable := 1 |}.

Definition s32_stereo : AudioFormat :=
  {| AudioFormat.sample_rate := 44100; AudioFormat.format := AudioFormat.S32;
     AudioFormat.channels := 2 |}.

Definition s16_stereo : AudioFormat :=
  {| AudioFormat.sample_rate := 44100; AudioFormat.format := AudioFormat.S16;
     AudioFormat.channels := 2 |}.

(** Rounds of the sndfile loop: a full buffer, a full buffer answered by
    a seek, and the end of the file. *)
Definition sf_data : SndfileDecoder.round :=
  {| SndfileDecoder.num_frames := 2048;
     SndfileDecoder.cmd := DecoderAPI.NONE;
     SndfileDecoder.where_frame := 0; SndfileDecoder.seek_result := 0 |}.

Definition sf_seeking : SndfileDecoder.round :=
  {| SndfileDecoder.num_frames := 2048;
     SndfileDecoder.cmd := DecoderAPI.SEEK;
     SndfileDecoder.where_frame := 88200;
     SndfileDecoder.seek_result := 88200 |}.

Definition sf_eof : SndfileDecoder.round :=
  {| SndfileDecoder.num_frames := 0;
     SndfileDecoder.cmd := DecoderAPI.NONE;
     SndfileDecoder.where_frame := 0; SndfileDecoder.seek_result := 0 |}.

(** Only the title and the artist are present. *)
Definition two_strings (str : SndfileDecoder.sf_str)
  : option (list Byte.byte) :=
  match str with
  | SndfileDecoder.SF_STR_TITLE => Some [Byte.x54]
  | SndfileDecoder.SF_STR_ARTIST => Some [Byte.x41]
  | _ => None
  end.

(** An MP3 file of ten seconds in signed 16 bit stereo, of the constant bit
    rate 128. *)
Definition cbr_info : Mpg123Decoder.mpg123_frameinfo :=
  {| Mpg123Decoder.vbr := Mpg123Decoder.MPG123_CBR;
     Mpg123Decoder.bitrate := 128; Mpg123Decoder.abr_rate := 0 |}.

Definition abr_info (bitrate abr_rate : Z) : Mpg123Decoder.mpg123_frameinfo :=
  {| Mpg123Decoder.vbr := Mpg123Decoder.MPG123_ABR;
     Mpg123Decoder.bitrate := bitrate; Mpg123Decoder.abr_rate := abr_rate |}.

Definition mp3_file : Mpg123Decoder.file_answers :=
  {| Mpg123Decoder.new_ok := true;
     Mpg123Decoder.open_error := Mpg123Decoder.MPG123_OK;
     Mpg123Decoder.getformat_error := Mpg123Decoder.MPG123_OK;
     Mpg123Decoder.rate := 44100; Mpg123Decoder.channels := 2;
     Mpg123Decoder.encoding := Mpg123Decoder.MPG123_ENC_SIGNED_16;
     Mpg123Decoder.num_samples := 441000;
     Mpg123Decoder.info := Some cbr_info |}.

(** Rounds of the mpg123 loop: 8192 bytes of data, and the end. *)
Definition mp3_data (again : option Mpg123Decoder.mpg123_frameinfo)
  : Mpg123Decoder.round :=
  {| Mpg123Decoder.read_error := Mpg123Decoder.MPG123_OK;
     Mpg123Decoder.nbytes := 8192; Mpg123Decoder.info_again := again;
     Mpg123Decoder.cmd := DecoderAPI.NONE;
     Mpg123Decoder.where_frame := 0; Mpg123Decoder.seek_result := 0 |}.

Definition mp3_done : Mpg123Decoder.round :=
  {| Mpg123Decoder.read_error := Mpg123Decoder.MPG123_DONE;
     Mpg123Decoder.nbytes := 0; Mpg123Decoder.info_again := None;
     Mpg123Decoder.cmd := DecoderAPI.NONE;
     Mpg123Decoder.where_frame := 0; Mpg123Decoder.seek_result := 0 |}.

End ExamplePlugin.

(** * Properties *)

Import AudioFormat(IsValid, GetFrameSize).
Import MusicChunk(length, bit_rate, times, audio_format, chunk, reserved,
                  Null, Region, Reserve, Commit, stamped, checks_pass,
                  session_ok).

(** ** Helper lemmas *)

Lemma size_t_small (z : Z) : 0 <= z <= SIZE_MAX -> size_t z = z.
Proof.
  unfold size_t, SIZE_MAX. intros H. apply Z.mod_small. lia.
Qed.

Lemma size_t_range (z : Z) : 0 <= size_t z <= SIZE_MAX.
Proof.
  unfold size_t, SIZE_MAX.
  pose proof (Z.mod_pos_bound z (2 ^ 64) ltac:(lia)). lia.
Qed.

Lemma sample_format_size_range (f : AudioFormat.SampleFormat) :
  0 <= AudioFormat.sample_format_size f <= 4.
Proof. destruct f; simpl; lia. Qed.

Lemma GetFrameSize_nonneg (af : AudioFormat) : 0 <= GetFrameSize af.
Proof.
  unfold GetFrameSize, AudioFormat.GetSampleSize.
  pose proof (sample_format_size_range (AudioFormat.format af)). nia.
Qed.

Lemma IsValid_frame_size (af : AudioFormat) :
  IsValid af = true -> 1 <= GetFrameSize af <= 1020.
Proof.
  unfold IsValid, GetFrameSize, AudioFormat.GetSampleSize.
  rewrite !andb_true_iff, negb_true_iff, bool_decide_eq_false.
  rewrite !N.ltb_lt, N.leb_le.
  intros [[[_ Hf] Hc] Hc'].
  destruct (AudioFormat.format af); simpl; try congruence; lia.
Qed.

Section Chunk.

(** [sizeof(data)]; no C++ object is larger than [PTRDIFF_MAX] bytes. *)
Variable C : Z.
Hypothesis C_bound : 0 <= C <= PTRDIFF_MAX.

Local Abbreviation Write := (MusicChunk.Write C).
Local Abbreviation Expand := (MusicChunk.Expand C).

Lemma length_stamped c t br : length (stamped c t br) = length c.
Proof. unfold stamped. destruct (length c =? 0); reflexivity. Qed.

Lemma Write_asserts bld c af :
  IsValid af = true -> checks_pass bld c af ->
  assert bld (MusicChunk.CheckFormat c af) = Returns tt /\
  assert bld (Returns ((length c =? 0) || IsValid (audio_format c)))
    = Returns tt.
Proof.
  intros Hv Hc. destruct bld; simpl; [|done].
  unfold MusicChunk.CheckFormat. simpl. rewrite Hv. simpl.
  destruct Hc as [H0 | Heq].
  - rewrite H0. simpl. done.
  - rewrite Heq, Hv, bool_decide_eq_true_2, !orb_true_r by done. done.
Qed.

(** [Write] in closed form, when its assertions pass. *)
Lemma Write_returns bld c af t br :
  IsValid af = true -> checks_pass bld c af ->
  Write bld c af t br =
  let s := GetFrameSize af in
  let c1 := stamped c t br in
  let num_frames := size_t (C - length c) / s in
  if num_frames =? 0 then Returns (Null, c1)
  else Returns (Region (length c) (size_t (num_frames * s)),
                match bld with
                | Debug => MusicChunk.set_audio_format c1 af
                | Release => c1
                end).
Proof.
  intros Hv Hc.
  destruct (Write_asserts bld c af Hv Hc) as [H1 H2].
  pose proof (IsValid_frame_size af Hv) as Hs.
  unfold MusicChunk.Write. rewrite H1. simpl. rewrite H2. simpl.
  fold (stamped c t br). rewrite length_stamped.
  unfold size_div. destruct (Z.eqb_spec (GetFrameSize af) 0); [lia|].
  simpl. destruct (size_t (C - length c) / GetFrameSize af =? 0); [done|].
  destruct bld; simpl; by rewrite ?length_stamped.
Qed.

(** The size of the region: the whole frames that fit. *)
Lemma reserve_size (L s : Z) :
  0 <= L <= C -> 1 <= s ->
  size_t (C - L) / s = (C - L) / s /\
  size_t ((C - L) / s * s) = (C - L) / s * s /\
  0 <= (C - L) / s * s <= C - L.
Proof.
  intros HL Hs. unfold PTRDIFF_MAX in C_bound.
  assert (0 <= (C - L) / s * s <= C - L) as Hb.
  { split; [apply Z.mul_nonneg_nonneg; [apply Z.div_pos|]; lia|].
    rewrite Z.mul_comm. apply Z.mul_div_le. lia. }
  rewrite !size_t_small by (unfold SIZE_MAX; lia). done.
Qed.

(** [Expand] in closed form, when its assertions pass. *)
Lemma Expand_returns bld c af n :
  (bld = Debug -> audio_format c = af) ->
  0 <= length c -> 0 <= n -> length c + n <= C ->
  0 <= GetFrameSize af <= 1020 ->
  Expand bld c af n =
  Returns (bool_decide (C - (length c + n) < GetFrameSize af),
           MusicChunk.set_length c (length c + n)).
Proof.
  intros Hf HL Hn Hle Hs. unfold PTRDIFF_MAX in C_bound.
  unfold MusicChunk.Expand.
  rewrite (size_t_small (length c + n)) by (unfold SIZE_MAX; lia).
  assert (assert bld (Returns (length c + n <=? C)) = Returns tt) as ->.
  { destruct bld; simpl; [|done].
    destruct (Z.leb_spec (length c + n) C); [done|lia]. }
  assert (assert bld (Returns (bool_decide (audio_format c = af)))
          = Returns tt) as ->.
  { destruct bld; simpl; [|done]. by rewrite bool_decide_eq_true_2 by auto. }
  simpl. rewrite size_t_small by (unfold SIZE_MAX; lia).
  do 2 f_equal.
  destruct (Z.ltb_spec C (length c + n + GetFrameSize af)).
  - symmetry. apply bool_decide_eq_true_2. lia.
  - symmetry. apply bool_decide_eq_false_2. lia.
Qed.

(** ** The commit: [MusicChunk::Expand] *)

(** C1.  On a chunk of committed length [L] holding the valid format
    [af] of frame size [s], committing [n] bytes, at most the reserved
    size [(C - L) / s * s], returns with the length set to [L + n], and
    the result is [true] exactly when [C - (L + n) < s]: fewer than one
    more whole frame fits.  With [C = 4096] and [s = 4], a length of 4094
    after the commit gives [true] and a length of 4092 gives [false].
    (That [n] is a whole number of frames is not needed.) *)
Theorem Expand_full_iff_no_frame_fits bld (c : MusicChunk) af n :
  0 <= length c <= C ->
  IsValid af = true ->
  audio_format c = af ->
  0 <= n <= (C - length c) / GetFrameSize af * GetFrameSize af ->
  exists full c',
    Expand bld c af n = Returns (full, c') /\
    length c' = length c + n /\
    (full = true <-> C - (length c + n) < GetFrameSize af) /\
    (C = 4096 -> GetFrameSize af = 4 -> length c' = 4094 -> full = true) /\
    (C = 4096 -> GetFrameSize af = 4 -> length c' = 4092 -> full = false).
Proof.
  intros HL Hv Hf Hn.
  pose proof (IsValid_frame_size af Hv) as Hs.
  destruct (reserve_size (length c) (GetFrameSize af)) as (_ & _ & Hr);
    [lia | lia |].
  eexists _, _. split.
  { apply Expand_returns; [auto | lia ..]. }
  simpl. split; [done|]. split; [apply bool_decide_eq_true|].
  split; intros HC H4 Hl.
  - apply bool_decide_eq_true_2. lia.
  - apply bool_decide_eq_false_2. lia.
Qed.

(** ** The reservation: [MusicChunk::Write] *)

(** C2.  On a chunk of committed length [L], with a valid format of
    frame size [s] (the chunk's own format when [L > 0]), [Write] returns
    without changing the length; it returns the null buffer when
    [(C - L) / s = 0], and otherwise the region that starts at offset [L]
    and is [(C - L) / s * s] bytes long.  A region it returns is a whole,
    positive number of frames and ends within the capacity. *)
Theorem Write_reserves_whole_frames bld (c : MusicChunk) af t br :
  0 <= length c <= C ->
  IsValid af = true ->
  length c = 0 \/ audio_format c = af ->
  let L := length c in
  let s := GetFrameSize af in
  exists buf c',
    Write bld c af t br = Returns (buf, c') /\
    length c' = L /\
    ((C - L) / s = 0 -> buf = Null) /\
    (1 <= (C - L) / s -> buf = Region L ((C - L) / s * s)) /\
    (forall offset size, buf = Region offset size ->
       offset = L /\ 0 < size /\ size mod s = 0 /\ offset + size <= C).
Proof.
  intros HL Hv Hf L s.
  pose proof (IsValid_frame_size af Hv) as Hs.
  destruct (reserve_size (length c) (GetFrameSize af)) as (H1 & H2 & Hr);
    [lia | lia |].
  assert (0 <= (C - L) / s) as Hq by (apply Z.div_pos; subst L s; lia).
  rewrite Write_returns; [| done | by destruct bld].
  simpl. rewrite H1, H2. fold L s in Hr |- *.
  destruct (Z.eqb_spec ((C - L) / s) 0) as [H0 | H0].
  - eexists _, _. split; [done|]. rewrite length_stamped.
    repeat split; try done. lia.
  - eexists _, _. split; [done|].
    split; [destruct bld; simpl; by rewrite length_stamped|].
    split; [lia|]. split; [done|].
    intros offset size [= <- <-]. split; [done|].
    split; [nia|]. split; [apply Z.mod_mul; lia | lia].
Qed.

(** C10.  On an empty chunk, a reservation with a valid format whose
    frame size exceeds the capacity returns the null buffer, and leaves
    the chunk with [bit_rate] and [times] overwritten by the arguments of
    the call and the length still 0. *)
Theorem Write_no_room_still_stamps bld (c : MusicChunk) af t br :
  length c = 0 ->
  IsValid af = true ->
  C < GetFrameSize af ->
  exists c',
    Write bld c af t br = Returns (Null, c') /\
    bit_rate c' = br /\ times c' = t /\ length c' = 0 /\
    audio_format c' = audio_format c.
Proof.
  intros H0 Hv Hs. unfold PTRDIFF_MAX in C_bound.
  rewrite Write_returns; [| done | destruct bld; simpl; auto].
  simpl. rewrite H0, Z.sub_0_r, size_t_small by (unfold SIZE_MAX; lia).
  rewrite Z.div_small by lia. simpl.
  eexists. split; [done|]. unfold stamped. rewrite H0. simpl. done.
Qed.

(** ** Sequences of reservations and commits *)

(** Whatever [Write] is given, if it returns it has computed its result
    from the frame size and the free bytes, and stamped the chunk only
    if it was empty. *)
Lemma Write_inv bld c af t br buf c' :
  Write bld c af t br = Returns (buf, c') ->
  GetFrameSize af <> 0 /\
  length c' = length c /\
  bit_rate c' = bit_rate (stamped c t br) /\
  times c' = times (stamped c t br) /\
  buf = (let s := GetFrameSize af in
         let num_frames := size_t (C - length c) / s in
         if num_frames =? 0 then Null
         else Region (length c) (size_t (num_frames * s))).
Proof.
  unfold MusicChunk.Write.
  destruct (assert bld (MusicChunk.CheckFormat c af)); simpl; try done.
  destruct (assert bld (Returns _)); simpl; try done.
  fold (stamped c t br). rewrite length_stamped. unfold size_div.
  destruct (Z.eqb_spec (GetFrameSize af) 0); simpl; [done|].
  destruct (size_t (C - length c) / GetFrameSize af =? 0).
  - intros [= <- <-]. by rewrite length_stamped.
  - intros [= <- <-]. destruct bld; simpl; by rewrite length_stamped.
Qed.

Lemma Expand_inv bld c af n full c' :
  Expand bld c af n = Returns (full, c') ->
  c' = MusicChunk.set_length c (size_t (length c + n)).
Proof.
  unfold MusicChunk.Expand.
  destruct (assert bld (Returns (_ <=? _))); simpl; try done.
  destruct (assert bld (Returns (bool_decide _))); simpl; try done.
  by intros [= _ <-].
Qed.

(** One call that meets its precondition keeps the session within the
    capacity, does not decrease the length, and leaves the stamp of a
    chunk that is not empty alone. *)
Lemma step_ok bld s k s' :
  session_ok C s -> MusicChunk.call_pre s k ->
  MusicChunk.step C bld s k = Returns s' ->
  session_ok C s' /\
  length (chunk s) <= length (chunk s') /\
  (0 < length (chunk s) ->
   bit_rate (chunk s') = bit_rate (chunk s) /\
   times (chunk s') = times (chunk s)).
Proof.
  intros (HL & Hr & Hle) Hpre Hstep. unfold PTRDIFF_MAX in C_bound.
  destruct k as [af t br | af n]; simpl in *.
  - destruct (MusicChunk.Write C bld (chunk s) af t br)
      as [[buf c'] | |] eqn:HW; simpl in Hstep; try done.
    injection Hstep as <-. simpl.
    apply Write_inv in HW as (Hs & Hl & Hb & Ht & Hbuf).
    pose proof (GetFrameSize_nonneg af) as Hs'.
    destruct (reserve_size (length (chunk s)) (GetFrameSize af))
      as (H1 & H2 & H3); [lia | lia |].
    simpl in Hbuf. rewrite H1, H2 in Hbuf.
    rewrite Hl. split; [|split; [lia|]].
    + unfold session_ok. simpl. rewrite Hl, Hbuf.
      destruct (_ / _ =? 0); simpl; lia.
    + intros Hpos. rewrite Hb, Ht. unfold stamped.
      destruct (Z.eqb_spec (length (chunk s)) 0); [lia | done].
  - destruct (MusicChunk.Expand C bld (chunk s) af n)
      as [[full c'] | |] eqn:HE; simpl in Hstep; try done.
    injection Hstep as <-. simpl.
    apply Expand_inv in HE as ->. simpl.
    rewrite size_t_small by (unfold SIZE_MAX; lia).
    unfold session_ok. simpl. repeat split; try done; lia.
Qed.

(** Every session of a trace is within the capacity and not shorter than
    the first one; if the first chunk is not empty, all carry its
    stamp. *)
Lemma trace_ok bld ks : forall s,
  session_ok C s -> MusicChunk.calls_pre C bld s ks ->
  Forall (fun s' =>
            session_ok C s' /\
            length (chunk s) <= length (chunk s') /\
            (0 < length (chunk s) ->
             bit_rate (chunk s') = bit_rate (chunk s) /\
             times (chunk s') = times (chunk s)))
         (MusicChunk.trace C bld s ks).
Proof.
  induction ks as [| k ks IH]; intros s Hok Hpre; simpl in *.
  - constructor; [|constructor]. split; [done|]. split; [lia | done].
  - destruct Hpre as [Hk Hpre].
    constructor; [split; [done|]; split; [lia | done]|].
    destruct (MusicChunk.step C bld s k) as [s' | |] eqn:Hstep;
      [|constructor ..].
    destruct (step_ok bld s k s' Hok Hk Hstep) as (Hok' & Hle & Hst).
    eapply Forall_impl; [apply IH; done|].
    simpl. intros x (Hx & Hlx & Hsx). split; [done|]. split; [lia|].
    intros Hpos. destruct (Hst Hpos) as [<- <-]. apply Hsx. lia.
Qed.

Lemma trace_monotone bld ks : forall s (i j : nat) si sj,
  session_ok C s -> MusicChunk.calls_pre C bld s ks ->
  (i <= j)%nat ->
  MusicChunk.trace C bld s ks !! i = Some si ->
  MusicChunk.trace C bld s ks !! j = Some sj ->
  length (chunk si) <= length (chunk sj).
Proof.
  induction ks as [| k ks IH]; intros s i j si sj Hok Hpre Hij Hi Hj.
  - simpl in *. destruct i, j; simpl in *; try done.
    injection Hi as <-. injection Hj as <-. lia.
  - destruct i as [| i].
    + pose proof (trace_ok bld (k :: ks) s Hok Hpre) as HF.
      rewrite Forall_lookup in HF. simpl in Hi. injection Hi as <-.
      by destruct (HF j sj Hj) as (_ & Hle & _).
    + destruct j as [| j]; [lia|]. simpl in Hpre, Hi, Hj.
      destruct Hpre as [Hk Hpre].
      destruct (MusicChunk.step C bld s k) as [s' | |] eqn:Hstep;
        try done.
      destruct (step_ok bld s k s' Hok Hk Hstep) as (Hok' & _).
      eapply (IH s' i j); eauto. lia.
Qed.

(** C4.  Along every sequence of reservations and commits on one chunk
    that starts within the capacity and in which every commit is of at
    most the bytes reserved, the length stays between 0 and the capacity
    [C] and never decreases; and a reservation that returns leaves the
    length as it was, on any chunk. *)
Theorem length_monotone_within_capacity bld s ks :
  session_ok C s ->
  MusicChunk.calls_pre C bld s ks ->
  let tr := MusicChunk.trace C bld s ks in
  (forall (i : nat) si, tr !! i = Some si -> 0 <= length (chunk si) <= C) /\
  (forall (i j : nat) si sj,
     (i <= j)%nat -> tr !! i = Some si -> tr !! j = Some sj ->
     length (chunk si) <= length (chunk sj)) /\
  (forall c af t br buf c',
     Write bld c af t br = Returns (buf, c') -> length c' = length c).
Proof.
  intros Hok Hpre tr. split; [|split].
  - intros i si Hi.
    pose proof (trace_ok bld ks s Hok Hpre) as HF.
    rewrite Forall_lookup in HF.
    destruct (HF i si Hi) as ((H0 & Hr & Hle) & _). lia.
  - intros i j si sj. by apply trace_monotone.
  - intros c af t br buf c' HW. by apply Write_inv in HW as (_ & Hl & _).
Qed.

(** C5, amended.  In the build with assertions, on a chunk that is not
    empty, a call with a format that differs from the stored
    [audio_format] is rejected: [CheckFormat] is false for it when it is
    valid (and stops at its own assertion when it is not), and [Write] and
    [Expand] stop at their assertion.  With the stored format, when
    valid, [CheckFormat] is true, [Write] returns, [Expand] returns for a
    byte count that fits, and both keep [times] and [bit_rate]. *)
Theorem Debug_rejects_other_format (c : MusicChunk) af :
  0 < length c ->
  (audio_format c <> af ->
     (IsValid af = true -> MusicChunk.CheckFormat c af = Returns false) /\
     (forall t br, Write Debug c af t br = AssertionFailed) /\
     (forall n, Expand Debug c af n = AssertionFailed)) /\
  (audio_format c = af -> IsValid af = true ->
     MusicChunk.CheckFormat c af = Returns true /\
     (forall t br, exists buf c',
        Write Debug c af t br = Returns (buf, c') /\
        times c' = times c /\ bit_rate c' = bit_rate c) /\
     (forall n, 0 <= n -> length c + n <= C -> exists full c',
        Expand Debug c af n = Returns (full, c') /\
        times c' = times c /\ bit_rate c' = bit_rate c)).
Proof.
  intros HL.
  assert ((length c =? 0) = false) as H0 by (apply Z.eqb_neq; lia).
  split.
  - intros Hf.
    assert (IsValid af = true ->
            MusicChunk.CheckFormat c af = Returns false) as HC.
    { intros Hv. unfold MusicChunk.CheckFormat. simpl. rewrite Hv. simpl.
      by rewrite H0, bool_decide_eq_false_2. }
    split; [done|]. split.
    + intros t br. unfold MusicChunk.Write.
      destruct (IsValid af) eqn:Hv; [by rewrite HC|].
      unfold MusicChunk.CheckFormat. simpl. by rewrite Hv.
    + intros n. unfold MusicChunk.Expand. simpl.
      rewrite bool_decide_eq_false_2 by done.
      by destruct (_ <=? _).
  - intros Hf Hv. split; [|split].
    + unfold MusicChunk.CheckFormat. simpl. rewrite Hv. simpl.
      by rewrite H0, bool_decide_eq_true_2.
    + intros t br. rewrite Write_returns; [| done | by right].
      simpl. unfold stamped. rewrite H0.
      destruct (size_t (C - length c) / GetFrameSize af =? 0);
        eexists _, _; (split; [reflexivity | done]).
    + intros n Hn Hle. pose proof (IsValid_frame_size af Hv).
      eexists _, _. split; [apply Expand_returns; auto; lia|]. done.
Qed.

(** C6, amended.  A reservation of an empty chunk captures [bit_rate]
    and [times] from its arguments, the first one and every later one
    made while the length is still 0; a reservation of a chunk that is
    not empty leaves them alone; and once the length is positive, no
    sequence of reservations and commits (each commit of at most the
    bytes reserved) changes them. *)
Theorem stamp_captured_while_empty bld :
  (forall c af t br buf c',
     length c = 0 -> Write bld c af t br = Returns (buf, c') ->
     bit_rate c' = br /\ times c' = t) /\
  (forall c af t br buf c',
     length c <> 0 -> Write bld c af t br = Returns (buf, c') ->
     bit_rate c' = bit_rate c /\ times c' = times c) /\
  (forall s ks (i : nat) si,
     session_ok C s -> 0 < length (chunk s) ->
     MusicChunk.calls_pre C bld s ks ->
     MusicChunk.trace C bld s ks !! i = Some si ->
     bit_rate (chunk si) = bit_rate (chunk s) /\
     times (chunk si) = times (chunk s)).
Proof.
  split; [|split].
  - intros c af t br buf c' H0 HW.
    apply Write_inv in HW as (_ & _ & -> & -> & _).
    unfold stamped. by rewrite H0.
  - intros c af t br buf c' H0 HW.
    apply Write_inv in HW as (_ & _ & -> & -> & _).
    unfold stamped. by destruct (Z.eqb_spec (length c) 0).
  - intros s ks i si Hok Hpos Hpre Hi.
    pose proof (trace_ok bld ks s Hok Hpre) as HF.
    rewrite Forall_lookup in HF.
    destruct (HF i si Hi) as (_ & _ & Hst). by apply Hst.
Qed.

End Chunk.

(** ** The chunk properties at concrete inputs *)

Import Example.

Lemma capacity_4096 : 0 <= 4096 <= PTRDIFF_MAX.
Proof. unfold PTRDIFF_MAX. lia. Defined.

Lemma Expand_full_iff_no_frame_fits_witness :
  exists full c',
    MusicChunk.Expand 4096 Debug (cd_chunk 4088) cd_stereo 4
      = Returns (full, c') /\
    length c' = 4092 /\ full = false.
Proof.
  destruct (Expand_full_iff_no_frame_fits 4096 capacity_4096 Debug
              (cd_chunk 4088) cd_stereo 4)
    as (full & c' & HE & Hl & _ & _ & H92).
  - simpl. lia.
  - reflexivity.
  - reflexivity.
  - vm_compute. split; discriminate.
  - exists full, c'. split; [exact HE|]. split; [exact Hl|].
    apply H92; [reflexivity | reflexivity | exact Hl].
Defined.

Lemma Write_reserves_whole_frames_witness :
  exists buf c',
    MusicChunk.Write 4096 Debug (cd_chunk 4088) cd_stereo 9 320
      = Returns (buf, c') /\
    buf = Region 4088 8.
Proof.
  destruct (Write_reserves_whole_frames 4096 capacity_4096 Debug
              (cd_chunk 4088) cd_stereo 9 320)
    as (buf & c' & HW & _ & _ & Hreg & _).
  - simpl. lia.
  - reflexivity.
  - right. reflexivity.
  - exists buf, c'. split; [exact HW|]. apply Hreg. vm_compute. discriminate.
Defined.

Lemma capacity_3 : 0 <= 3 <= PTRDIFF_MAX.
Proof. unfold PTRDIFF_MAX. lia. Defined.

Lemma Write_no_room_still_stamps_witness :
  exists c',
    MusicChunk.Write 3 Release empty_chunk cd_stereo 9 320
      = Returns (Null, c') /\
    bit_rate c' = 320 /\ times c' = 9 /\ length c' = 0 /\
    audio_format c' = no_format.
Proof.
  apply (Write_no_room_still_stamps 3 capacity_3 Release empty_chunk
           cd_stereo 9 320).
  - reflexivity.
  - reflexivity.
  - vm_compute. reflexivity.
Defined.

Lemma fresh_session_ok : session_ok 4096 fresh_session.
Proof. unfold session_ok. simpl. lia. Defined.

Lemma two_rounds_pre : MusicChunk.calls_pre 4096 Debug fresh_session two_rounds.
Proof. vm_compute. intuition discriminate. Defined.

Lemma length_monotone_within_capacity_witness :
  exists si sj,
    MusicChunk.trace 4096 Debug fresh_session two_rounds !! 2%nat = Some si /\
    MusicChunk.trace 4096 Debug fresh_session two_rounds !! 4%nat = Some sj /\
    0 <= length (chunk si) <= 4096 /\
    length (chunk si) <= length (chunk sj).
Proof.
  destruct (length_monotone_within_capacity 4096 capacity_4096 Debug
              fresh_session two_rounds fresh_session_ok two_rounds_pre)
    as (Hbound & Hmono & _).
  eexists _, _. split; [reflexivity|]. split; [reflexivity|]. split.
  - apply (Hbound 2%nat). reflexivity.
  - apply (Hmono 2%nat 4%nat); [lia | reflexivity | reflexivity].
Defined.

Example two_rounds_lengths :
  (length ∘ chunk) <$> MusicChunk.trace 4096 Debug fresh_session two_rounds
  = [0; 0; 4088; 4088; 4096].
Proof. reflexivity. Qed.

(** With [NDEBUG] the format check is compiled out: a reservation and a
    commit with a format other than the stored one return, on a chunk that
    is not empty. *)
Lemma Release_accepts_other_format :
  0 < length (cd_chunk 4) /\
  audio_format (cd_chunk 4) <> mono_8 /\
  MusicChunk.Write 4096 Release (cd_chunk 4) mono_8 9 320
    = Returns (Region 4 4092, cd_chunk 4) /\
  MusicChunk.Expand 4096 Release (cd_chunk 4) mono_8 1
    = Returns (false, cd_chunk 5).
Proof.
  split; [reflexivity|]. split; [discriminate|]. split; reflexivity.
Qed.

Lemma Debug_rejects_other_format_witness :
  MusicChunk.CheckFormat (cd_chunk 4) mono_8 = Returns false /\
  MusicChunk.Write 4096 Debug (cd_chunk 4) mono_8 9 320 = AssertionFailed /\
  MusicChunk.Expand 4096 Debug (cd_chunk 4) mono_8 1 = AssertionFailed /\
  exists buf c',
    MusicChunk.Write 4096 Debug (cd_chunk 4) cd_stereo 9 320
      = Returns (buf, c') /\
    times c' = 7 /\ bit_rate c' = 128.
Proof.
  destruct (Debug_rejects_other_format 4096 capacity_4096 (cd_chunk 4) mono_8)
    as [Hne _]; [reflexivity|].
  destruct (Debug_rejects_other_format 4096 capacity_4096 (cd_chunk 4)
              cd_stereo)
    as [_ Heq]; [reflexivity|].
  destruct Hne as (HC & HW & HE); [discriminate|].
  destruct Heq as (_ & HW' & _); [reflexivity | reflexivity |].
  split; [exact (HC eq_refl)|]. split; [exact (HW 9 320)|].
  split; [exact (HE 1)|]. exact (HW' 9 320).
Defined.

(** A second reservation of a chunk that is still empty overwrites the
    stamp captured by the first one. *)
Lemma second_Write_of_empty_chunk_restamps :
  MusicChunk.Write 4096 Debug empty_chunk cd_stereo 7 128
    = Returns (Region 0 4096, cd_chunk 0) /\
  MusicChunk.Write 4096 Debug (cd_chunk 0) cd_stereo 9 320
    = Returns (Region 0 4096, MusicChunk.set_stamp (cd_chunk 0) 320 9) /\
  bit_rate (MusicChunk.set_stamp (cd_chunk 0) 320 9) <> bit_rate (cd_chunk 0) /\
  times (MusicChunk.set_stamp (cd_chunk 0) 320 9) <> times (cd_chunk 0).
Proof.
  split; [reflexivity|]. split; [reflexivity|]. split; discriminate.
Qed.

Lemma stamp_captured_while_empty_witness :
  exists si,
    MusicChunk.trace 4096 Debug
      {| chunk := cd_chunk 8; reserved := 0 |}
      [Reserve cd_stereo 9 320; Commit cd_stereo 4088] !! 2%nat = Some si /\
    length (chunk si) = 4096 /\
    bit_rate (chunk si) = 128 /\ times (chunk si) = 7.
Proof.
  destruct (stamp_captured_while_empty 4096 capacity_4096 Debug)
    as (_ & _ & Htr).
  eexists. split; [reflexivity|]. split; [reflexivity|].
  apply (Htr {| chunk := cd_chunk 8; reserved := 0 |}
             [Reserve cd_stereo 9 320; Commit cd_stereo 4088] 2%nat).
  - unfold session_ok. simpl. lia.
  - reflexivity.
  - vm_compute. intuition discriminate.
  - reflexivity.
Defined.

(** ** The DSD-over-USB packer *)

Section Packer.

Import PcmDsdUsb.
Local Open Scope nat_scope.

Lemma length_PcmBuffer_Get buffer n fresh :
  n <= List.length (PcmBuffer_Get buffer n fresh).
Proof.
  unfold PcmBuffer_Get. case_decide; [done|]. by rewrite length_resize.
Qed.

(** The words stored from index [i] on sit right after the first [i]
    words of the destination. *)
Lemma take_store ws : forall dest i,
  i + List.length ws <= List.length dest ->
  take (i + List.length ws) (store dest i ws) = take i dest ++ ws.
Proof.
  induction ws as [| w ws IH]; intros dest i Hle; simpl in *.
  - by rewrite Nat.add_0_r, app_nil_r.
  - replace (i + S (List.length ws)) with (S i + List.length ws) by lia.
    rewrite IH by (rewrite length_insert; lia).
    rewrite (take_S_r _ i w) by (apply list_lookup_insert_eq; lia).
    rewrite take_insert, decide_False by lia.
    by rewrite <- app_assoc.
Qed.

Lemma length_pack_frames channels n : forall frame src,
  channels * n <= List.length src ->
  List.length (pack_frames channels frame n src) = channels * n.
Proof.
  induction n as [| n IH]; intros frame src Hle; simpl; [lia|].
  rewrite length_app, length_fmap, length_take_le by lia.
  rewrite IH by (rewrite length_drop; lia). lia.
Qed.

(** The word at index [i] carries the byte at index [i] under the marker
    of frame [i / channels], counted from the first frame of [src]. *)
Lemma lookup_pack_frames channels n : forall frame src i b,
  1 <= channels ->
  List.length src = channels * n ->
  src !! i = Some b ->
  pack_frames channels frame n src !! i
  = Some (dop_word (marker_byte (frame + i / channels)) b).
Proof.
  induction n as [| n IH]; intros frame src i b Hc Hlen Hi.
  - apply lookup_lt_Some in Hi. lia.
  - simpl. destruct (decide (i < channels)) as [Hlt | Hge].
    + rewrite lookup_app_l by (rewrite length_fmap, length_take_le; lia).
      rewrite list_lookup_fmap, lookup_take_lt, Hi by done. simpl.
      by rewrite Nat.div_small, Nat.add_0_r by done.
    + rewrite lookup_app_r by (rewrite length_fmap, length_take_le; lia).
      rewrite length_fmap, length_take_le by lia.
      rewrite (IH (S frame) (drop channels src) (i - channels) b).
      * do 3 f_equal.
        replace i with (1 * channels + (i - channels)) at 2 by lia.
        rewrite Nat.div_add_l by lia. lia.
      * done.
      * rewrite length_drop. lia.
      * rewrite lookup_drop. rewrite <- Hi. f_equal. lia.
Qed.

(** The view of a well-formed input: the packed frames, whatever the
    scratch buffer held. *)
Lemma pcm_dsd_to_usb_view buffer fresh channels src :
  List.length src `mod` channels = 0 ->
  (pcm_dsd_to_usb buffer fresh channels src).1
  = inr (pack_frames channels 0 (List.length src / channels) src).
Proof.
  intros Hmod. unfold pcm_dsd_to_usb. rewrite decide_True by done. simpl.
  apply Nat.Div0.div_exact in Hmod.
  set (n := List.length src / channels) in *.
  pose proof (length_pack_frames channels n 0 src ltac:(lia)) as Hl.
  pose proof (take_store (pack_frames channels 0 n src)
                (PcmBuffer_Get buffer (channels * n) fresh) 0) as Ht.
  simpl in Ht. rewrite Hl in Ht. rewrite Ht; [done|].
  apply length_PcmBuffer_Get.
Qed.

Lemma word_marker_dop_word frame b :
  word_marker (dop_word (marker_byte frame) b) = marker_byte frame.
Proof.
  unfold marker_byte. destruct (Nat.even frame); destruct b; reflexivity.
Qed.

Lemma word_data_dop_word frame b :
  word_data (dop_word (marker_byte frame) b) = uint8 b.
Proof.
  unfold marker_byte. destruct (Nat.even frame); destruct b; reflexivity.
Qed.

(** C3.  For [channels >= 1] and an input whose length is a whole
    multiple of [channels], the packer gives a view of one word per
    input byte; the word at index [i] is
    (marker << 16) | (byte << 8) | 0x00 for the byte at index [i], with
    the marker [0x05] when the frame [i / channels] is even and [0xFA]
    when it is odd.  For 2 channels and the bytes AA 55 11 22 the view
    is 4 words with markers 05 05 FA FA and middle bytes AA 55 11 22. *)
Theorem pcm_dsd_to_usb_words buffer fresh channels src :
  1 <= channels ->
  List.length src `mod` channels = 0 ->
  exists view,
    (pcm_dsd_to_usb buffer fresh channels src).1 = inr view /\
    List.length view = List.length src /\
    (forall i b,
       src !! i = Some b ->
       view !! i
       = Some (Z.lor
                 (Z.lor
                    (Z.shiftl
                       (if Nat.even (i / channels) then 0x05 else 0xFA) 16)
                    (Z.shiftl (uint8 b) 8))
                 0x00)%Z) /\
    (channels = 2 -> src = [Byte.xaa; Byte.x55; Byte.x11; Byte.x22] ->
     view = [0x05AA00; 0x055500; 0xFA1100; 0xFA2200]%Z /\
     word_marker <$> view = [0x05; 0x05; 0xFA; 0xFA]%Z /\
     word_data <$> view = [0xAA; 0x55; 0x11; 0x22]%Z).
Proof.
  intros Hc Hmod. eexists. split; [by apply pcm_dsd_to_usb_view|].
  pose proof Hmod as Hlen. apply Nat.Div0.div_exact in Hlen.
  split; [|split].
  - rewrite length_pack_frames; lia.
  - intros i b Hi.
    by rewrite (lookup_pack_frames _ _ 0 src i b).
  - intros -> ->. done.
Qed.

(** C7.  For [channels >= 1] and an input whose length is not a whole
    multiple of [channels], the packer fails with [InvalidArgument]: it
    gives no view, and the scratch buffer is as it was. *)
Theorem pcm_dsd_to_usb_rejects_partial_frame buffer fresh channels src :
  1 <= channels ->
  List.length src `mod` channels <> 0 ->
  pcm_dsd_to_usb buffer fresh channels src = (inl InvalidArgument, buffer).
Proof.
  intros _ Hmod. unfold pcm_dsd_to_usb. by rewrite decide_False.
Qed.

(** C9.  The result of the packer depends on the channel count and the
    input bytes only: any two calls on them give the same result,
    whatever the scratch buffer holds, in particular a second call on
    the buffer left by the first.  The marker of each word of a view is
    that of its frame index within the call, [0x05] for the even frames,
    the first one included, and [0xFA] for the odd ones. *)
Theorem pcm_dsd_to_usb_deterministic channels src :
  (forall buffer1 fresh1 buffer2 fresh2,
     (pcm_dsd_to_usb buffer1 fresh1 channels src).1
     = (pcm_dsd_to_usb buffer2 fresh2 channels src).1) /\
  (forall buffer fresh fresh',
     (pcm_dsd_to_usb (pcm_dsd_to_usb buffer fresh channels src).2
                     fresh' channels src).1
     = (pcm_dsd_to_usb buffer fresh channels src).1) /\
  (forall buffer fresh view i w,
     (pcm_dsd_to_usb buffer fresh channels src).1 = inr view ->
     view !! i = Some w ->
     word_marker w = (if Nat.even (i / channels) then 0x05 else 0xFA)%Z) /\
  (forall buffer fresh view w,
     (pcm_dsd_to_usb buffer fresh channels src).1 = inr view ->
     view !! 0 = Some w -> word_marker w = 0x05%Z).
Proof.
  assert (forall buffer1 fresh1 buffer2 fresh2,
            (pcm_dsd_to_usb buffer1 fresh1 channels src).1
            = (pcm_dsd_to_usb buffer2 fresh2 channels src).1) as Hsame.
  { intros b1 f1 b2 f2.
    destruct (decide (List.length src `mod` channels = 0)) as [Hm | Hm].
    - by rewrite !pcm_dsd_to_usb_view.
    - unfold pcm_dsd_to_usb. by rewrite !decide_False. }
  assert (forall buffer fresh view i w,
            (pcm_dsd_to_usb buffer fresh channels src).1 = inr view ->
            view !! i = Some w ->
            word_marker w = marker_byte (i / channels)) as Hmark.
  { intros buffer fresh view i w Hv Hi.
    destruct (decide (List.length src `mod` channels = 0)) as [Hm | Hm];
      [| unfold pcm_dsd_to_usb in Hv; by rewrite decide_False in Hv].
    rewrite pcm_dsd_to_usb_view in Hv by done. injection Hv as <-.
    pose proof Hm as Hlen. apply Nat.Div0.div_exact in Hlen.
    pose proof (lookup_lt_Some _ _ _ Hi) as Hlt.
    rewrite length_pack_frames in Hlt by lia.
    destruct (decide (channels = 0)) as [-> | Hc]; [simpl in Hlt; lia|].
    destruct (lookup_lt_is_Some_2 src i ltac:(lia)) as [b Hb].
    rewrite (lookup_pack_frames _ _ 0 src i b) in Hi by (done || lia).
    injection Hi as <-. apply word_marker_dop_word. }
  split; [done|]. split; [intros; apply Hsame|].
  split; [exact Hmark|].
  intros buffer fresh view w Hv H0.
  rewrite (Hmark buffer fresh view 0 w Hv H0).
  destruct channels; reflexivity.
Qed.

End Packer.

Lemma pcm_dsd_to_usb_words_witness :
  exists view,
    (PcmDsdUsb.pcm_dsd_to_usb [] [] 2
       [Byte.xaa; Byte.x55; Byte.x11; Byte.x22]).1 = inr view /\
    view = [0x05AA00; 0x055500; 0xFA1100; 0xFA2200].
Proof.
  destruct (pcm_dsd_to_usb_words [] [] 2
              [Byte.xaa; Byte.x55; Byte.x11; Byte.x22])
    as (view & Hv & _ & _ & Hex).
  - vm_compute. lia.
  - reflexivity.
  - exists view. split; [exact Hv|]. apply Hex; reflexivity.
Defined.

Lemma pcm_dsd_to_usb_rejects_partial_frame_witness :
  PcmDsdUsb.pcm_dsd_to_usb [7; 8; 9] [] 2 [Byte.xaa; Byte.x55; Byte.x11]
  = (inl PcmDsdUsb.InvalidArgument, [7; 8; 9]).
Proof.
  apply pcm_dsd_to_usb_rejects_partial_frame.
  - vm_compute. lia.
  - vm_compute. discriminate.
Defined.

(** ** The sndfile stream reader *)

Section Reader.

Context {Decoder InputStream : Type}.
Variable decoder_read_full :
  Decoder -> InputStream -> Z ->
  bool * list Byte.byte * (Decoder * InputStream).

(** C8.  A read of [N] bytes reports [N] when [decoder_read_full] read
    them all and 0 when it did not: never a byte count in between; and
    the caller's buffer holds what [decoder_read_full] left there, with
    nothing added. *)
Theorem Read_all_or_nothing
    (sis : Sndfile.SndfileInputStream Decoder InputStream) (N : Z) :
  let full :=
    decoder_read_full (Sndfile.decoder sis) (Sndfile.is_ sis) N in
  let r := Sndfile.Read decoder_read_full sis N in
  r.1.1 = (if full.1.1 then N else 0) /\
  (r.1.1 = N \/ r.1.1 = 0) /\
  r.1.2 = full.1.2.
Proof.
  unfold Sndfile.Read.
  destruct (decoder_read_full _ _ _) as [[[|] buffer] [d i]]; simpl; auto.
Qed.

End Reader.

(** ** The reserve/commit protocol of the chunk, call by call *)

Section ChunkProtocol.

Variable C : Z.
Hypothesis C_bound : 0 <= C <= PTRDIFF_MAX.

Local Abbreviation Write := (MusicChunk.Write C).
Local Abbreviation Expand := (MusicChunk.Expand C).

(** The format a chunk holds after [Write]: the [Debug] build stores the
    format of the call when it hands out a region, and nothing else
    touches it. *)
Lemma Write_inv_format bld c af t br buf c' :
  Write bld c af t br = Returns (buf, c') ->
  audio_format c' =
  match bld, buf with
  | Debug, Region _ _ => af
  | _, _ => audio_format c
  end.
Proof.
  unfold MusicChunk.Write.
  destruct (assert bld (MusicChunk.CheckFormat c af)); simpl; try done.
  destruct (assert bld (Returns _)); simpl; try done.
  fold (stamped c t br). rewrite length_stamped. unfold size_div.
  destruct (Z.eqb_spec (GetFrameSize af) 0); simpl; [done|].
  assert (audio_format (stamped c t br) = audio_format c) as Hst.
  { unfold stamped. by destruct (length c =? 0). }
  destruct (size_t (C - length c) / GetFrameSize af =? 0).
  - intros [= <- <-]. by destruct bld.
  - intros [= <- <-]. by destruct bld.
Qed.

(** X1.  After a [Write] with a valid format has handed out a region,
    [Expand] with that format returns for every byte count up to the size
    of the region, in both builds, and leaves the length within the
    capacity; committing the whole region reports the chunk full. *)
Theorem Expand_within_region_returns bld (c : MusicChunk) af t br
    offset size c1 :
  0 <= length c <= C ->
  IsValid af = true ->
  Write bld c af t br = Returns (Region offset size, c1) ->
  (forall n, 0 <= n <= size -> exists full c2,
     Expand bld c1 af n = Returns (full, c2) /\
     length c2 = length c + n /\ length c2 <= C) /\
  (exists c2, Expand bld c1 af size = Returns (true, c2)).
Proof.
  intros HL Hv HW.
  pose proof (IsValid_frame_size af Hv) as Hs.
  pose proof (Write_inv_format _ _ _ _ _ _ _ HW) as Hf.
  apply (Write_inv C) in HW as (_ & Hl & _ & _ & Hbuf). simpl in Hbuf.
  destruct (reserve_size C C_bound (length c) (GetFrameSize af))
    as (H1 & H2 & Hr); [lia | lia |].
  rewrite H1, H2 in Hbuf.
  destruct (Z.eqb_spec ((C - length c) / GetFrameSize af) 0) as [|Hnf];
    [done|].
  injection Hbuf as -> ->.
  assert (forall n, 0 <= n <= (C - length c) / GetFrameSize af
                                * GetFrameSize af ->
          Expand bld c1 af n =
          Returns (bool_decide (C - (length c1 + n) < GetFrameSize af),
                   MusicChunk.set_length c1 (length c1 + n))) as HE.
  { intros n Hn. apply Expand_returns; try done; try lia.
    intros ->. done. }
  split.
  - intros n Hn. eexists _, _. split; [by apply HE|]. simpl. lia.
  - eexists. rewrite HE by lia. do 2 f_equal.
    apply bool_decide_eq_true_2. rewrite Hl.
    pose proof (Z.mod_pos_bound (C - length c) (GetFrameSize af)
                  ltac:(lia)).
    pose proof (Z.div_mod (C - length c) (GetFrameSize af) ltac:(lia)).
    lia.
Qed.

(** X2.  The flag of a commit foretells the next reservation: [Expand]
    returns [true] exactly when the next [Write] with the same format
    returns the null buffer. *)
Theorem Expand_flag_foretells_Write bld (c : MusicChunk) af n full c' :
  0 <= length c -> 0 <= n -> length c + n <= C ->
  IsValid af = true ->
  audio_format c = af ->
  Expand bld c af n = Returns (full, c') ->
  forall t br, exists buf c'',
    Write bld c' af t br = Returns (buf, c'') /\
    (full = true <-> buf = Null).
Proof.
  intros HL Hn Hle Hv Hf HE t br.
  pose proof (IsValid_frame_size af Hv) as Hs.
  rewrite (Expand_returns C C_bound) in HE by (auto; lia).
  injection HE as <- <-.
  rewrite (Write_returns C);
    [| done | destruct bld; simpl; auto].
  simpl.
  destruct (reserve_size C C_bound (length c + n) (GetFrameSize af))
    as (H1 & _ & _); [lia | lia |].
  rewrite H1.
  destruct (Z.eqb_spec ((C - (length c + n)) / GetFrameSize af) 0)
    as [H0 | H0].
  - eexists _, _. split; [done|]. split; [done|]. intros _.
    apply bool_decide_eq_true_2.
    apply Z.div_small_iff in H0; lia.
  - eexists _, _. split; [done|]. split; [|done].
    intros Hfull%bool_decide_eq_true. exfalso. apply H0.
    apply Z.div_small. lia.
Qed.

(** X3.  In the [Debug] build a commit that would carry the length past
    the capacity stops at the assertion. *)
Theorem Debug_Expand_rejects_overrun (c : MusicChunk) af n :
  0 <= length c -> 0 <= n ->
  C < length c + n <= SIZE_MAX ->
  Expand Debug c af n = AssertionFailed.
Proof.
  clear C_bound. intros HL Hn Hover. unfold MusicChunk.Expand. simpl.
  rewrite (size_t_small (length c + n)) by lia.
  destruct (Z.leb_spec (length c + n) C); [lia | done].
Qed.


(** X5.  The assertion on the format guards the division by the frame
    size: in the [Debug] build [Write] never divides by zero, and in the
    [Release] build it does so exactly for a format whose frame size
    is 0. *)
Theorem Write_divides_by_zero_iff (c : MusicChunk) af t br :
  Write Debug c af t br <> DivisionByZero /\
  (Write Release c af t br = DivisionByZero <-> GetFrameSize af = 0).
Proof.
  split.
  - destruct (IsValid af) eqn:Hv.
    + pose proof (IsValid_frame_size af Hv) as Hs.
      unfold MusicChunk.Write, MusicChunk.CheckFormat. simpl.
      rewrite Hv. simpl.
      destruct ((length c =? 0) || bool_decide (audio_format c = af));
        simpl; [|done].
      destruct ((length c =? 0) || IsValid (audio_format c)); simpl;
        [|done].
      unfold size_div. destruct (Z.eqb_spec (GetFrameSize af) 0); [lia|].
      simpl. by destruct (_ / _ =? 0).
    + unfold MusicChunk.Write, MusicChunk.CheckFormat. simpl.
      by rewrite Hv.
  - unfold MusicChunk.Write. simpl. unfold size_div.
    destruct (Z.eqb_spec (GetFrameSize af) 0); simpl; [done|].
    split; [|done]. by destruct (_ / _ =? 0).
Qed.

End ChunkProtocol.

(** ** The virtual I/O of the sndfile plugin *)

Lemma sf_count_t_small (z : Z) :
  SndfileVio.INT64_MIN <= z <= SndfileVio.INT64_MAX ->
  SndfileVio.sf_count_t z = z.
Proof.
  unfold SndfileVio.sf_count_t, SndfileVio.INT64_MIN, SndfileVio.INT64_MAX.
  intros H. rewrite Z.mod_small; lia.
Qed.

(** A count that goes to [size_t] and back is the count it was. *)
Lemma sf_count_t_size_t (z : Z) :
  SndfileVio.INT64_MIN <= z <= SndfileVio.INT64_MAX ->
  SndfileVio.sf_count_t (size_t z) = z.
Proof.
  unfold SndfileVio.sf_count_t, size_t, SndfileVio.INT64_MIN,
    SndfileVio.INT64_MAX.
  intros H. rewrite Zplus_mod_idemp_l. rewrite Z.mod_small; lia.
Qed.

Section VioProperties.

Import SndfileVio.

Context {Decoder InputStream : Type}.
Variable decoder_read_full :
  Decoder -> InputStream -> Z ->
  bool * list Byte.byte * (Decoder * InputStream).
Variable offset_type : Z -> Z.
Variable KnownSize : InputStream -> bool.
Variable GetSize : InputStream -> Z.
Variable GetOffset : InputStream -> Z.
Variable LockSeek : InputStream -> Z -> bool * InputStream.

Local Abbreviation seek :=
  (sndfile_vio_seek offset_type KnownSize GetSize GetOffset LockSeek).

(** X6.  Through the conversions between [sf_count_t] and [size_t],
    [sndfile_vio_read] reports to libsndfile the very count it was asked
    for when [decoder_read_full] read everything, and 0 when it did not;
    the buffer holds what [decoder_read_full] left there. *)
Theorem sndfile_vio_read_all_or_nothing
    (sis : Sndfile.SndfileInputStream Decoder InputStream) (count : Z) :
  INT64_MIN <= count <= INT64_MAX ->
  let full :=
    decoder_read_full (Sndfile.decoder sis) (Sndfile.is_ sis)
      (size_t count) in
  let r := sndfile_vio_read decoder_read_full count sis in
  r.1.1 = (if full.1.1 then count else 0) /\
  r.1.2 = full.1.2.
Proof.
  intros Hc. unfold sndfile_vio_read, Sndfile.Read.
  destruct (decoder_read_full _ _ _) as [[[|] buffer] [d i]]; simpl.
  - by rewrite sf_count_t_size_t.
  - done.
Qed.

(** X7.  A seek with a [whence] other than [SEEK_SET], [SEEK_CUR] and
    [SEEK_END], or from the end of a stream of unknown size, returns -1
    without seeking: the reader is as it was and nothing is logged. *)
Theorem sndfile_vio_seek_refuses
    (sis : Sndfile.SndfileInputStream Decoder InputStream)
    (_offset whence : Z) :
  (whence <> SEEK_SET /\ whence <> SEEK_CUR /\ whence <> SEEK_END) \/
  (whence = SEEK_END /\ KnownSize (Sndfile.is_ sis) = false) ->
  seek _offset whence sis = (-1, sis, []).
Proof.
  unfold sndfile_vio_seek, seek_target.
  intros [(H0 & H1 & H2) | [-> Hk]].
  - destruct (Z.eqb_spec whence SEEK_SET); [done|].
    destruct (Z.eqb_spec whence SEEK_CUR); [done|].
    destruct (Z.eqb_spec whence SEEK_END); done.
  - simpl. by rewrite Hk.
Qed.

(** X8.  Seeks relative to the current position or to the end are the
    absolute seeks to the sum of the offset and the position or the size,
    for any [offset_type] in which a sum may be reduced before or after
    adding. *)
Theorem sndfile_vio_seek_relative_is_absolute
    (sis : Sndfile.SndfileInputStream Decoder InputStream) (_offset : Z) :
  (forall a b, offset_type (offset_type a + b) = offset_type (a + b)) ->
  (INT64_MIN <= _offset + GetOffset (Sndfile.is_ sis) <= INT64_MAX ->
   seek _offset SEEK_CUR sis
   = seek (_offset + GetOffset (Sndfile.is_ sis)) SEEK_SET sis) /\
  (KnownSize (Sndfile.is_ sis) = true ->
   INT64_MIN <= _offset + GetSize (Sndfile.is_ sis) <= INT64_MAX ->
   seek _offset SEEK_END sis
   = seek (_offset + GetSize (Sndfile.is_ sis)) SEEK_SET sis).
Proof.
  intros Hadd. unfold sndfile_vio_seek, seek_target. simpl. split.
  - intros _. by rewrite Hadd.
  - intros -> _. simpl. by rewrite Hadd.
Qed.

(** X9.  A seek that does not return -1 has moved the stream, logged
    nothing, and returns the position that [sndfile_vio_tell] reports
    afterwards. *)
Theorem sndfile_vio_seek_agrees_with_tell
    (sis sis' : Sndfile.SndfileInputStream Decoder InputStream)
    (_offset whence r : Z) log :
  seek _offset whence sis = (r, sis', log) ->
  r <> -1 ->
  r = sndfile_vio_tell GetOffset sis' /\ log = [] /\
  exists offset,
    seek_target offset_type KnownSize GetSize GetOffset _offset whence sis
      = Some offset /\
    LockSeek (Sndfile.is_ sis) offset = (true, Sndfile.is_ sis').
Proof.
  unfold sndfile_vio_seek, sndfile_vio_tell.
  destruct (seek_target _ _ _ _ _ _ _) as [offset|]; [|by intros [= <- _ _]].
  destruct (LockSeek _ _) as [[|] is'] eqn:HL.
  - intros [= <- <- <-] _. simpl. eauto.
  - by intros [= <- _ _].
Qed.

End VioProperties.

(** ** The decoder of the sndfile plugin *)

Section SndfileDecoderProperties.

Import DecoderAPI SndfileDecoder.

Variable audio_format_init_checked :
  Z -> AudioFormat.SampleFormat -> Z -> option AudioFormat.
Variable audio_valid_sample_rate : Z -> bool.

Local Abbreviation decode :=
  (sndfile_stream_decode audio_format_init_checked).
Local Abbreviation scan :=
  (sndfile_scan_stream audio_valid_sample_rate).

(** The loop itself never closes the file and never divides. *)
Lemma decode_loop_no_close frame_size read_frames script :
  List.filter is_sf_close (decode_loop frame_size read_frames script).1 = []
  /\ (decode_loop frame_size read_frames script).2 <> DividedByZero.
Proof.
  induction script as [| r rest [IH1 IH2]]; simpl; [done|].
  destruct (num_frames r <=? 0); [done|].
  destruct (decode_loop frame_size read_frames rest) as [events st].
  simpl in *. destruct (cmd r); simpl; try done.
  - by destruct (seek_result r <? 0).
Qed.

(** As long as no round stops the loop, it waits for the next one. *)
Lemma decode_loop_waits frame_size read_frames script :
  Forall (fun r => stops r = false) script ->
  (decode_loop frame_size read_frames script).2 = Waiting.
Proof.
  induction 1 as [| r rest Hr _ IH]; simpl; [done|].
  unfold stops in Hr. apply orb_false_iff in Hr as [-> Hc].
  destruct (decode_loop frame_size read_frames rest) as [events st].
  simpl in *. by destruct (cmd r).
Qed.

(** The loop ends at the first round that stops it, and consults no
    answer after it. *)
Lemma decode_loop_stops frame_size read_frames pre r rest :
  Forall (fun r => stops r = false) pre ->
  stops r = true ->
  decode_loop frame_size read_frames (pre ++ r :: rest)
  = decode_loop frame_size read_frames (pre ++ [r]) /\
  (decode_loop frame_size read_frames (pre ++ [r])).2 = Returned.
Proof.
  intros Hpre Hr. induction Hpre as [| p pre Hp _ [IH1 IH2]]; simpl.
  - unfold stops in Hr.
    destruct (num_frames r <=? 0); [done|]. simpl in Hr.
    by destruct (cmd r).
  - unfold stops in Hp. apply orb_false_iff in Hp as [-> Hc].
    rewrite IH1.
    destruct (decode_loop frame_size read_frames (pre ++ [r]))
      as [events st].
    simpl in *. by destruct (cmd p).
Qed.

(** Every [decoder_data] of the loop passes a positive whole number of
    frames that fits the buffer, with bit rate 0, when [sf_readf_int]
    gives no more frames than it was asked for. *)
Lemma decode_loop_data frame_size read_frames script :
  1 <= frame_size -> 0 <= read_frames ->
  read_frames * frame_size <= sizeof_buffer ->
  Forall (fun r => num_frames r <= read_frames) script ->
  forall e, e ∈ (decode_loop frame_size read_frames script).1 ->
    match e with
    | decoder_data len kbit_rate =>
        0 < len <= sizeof_buffer /\ len mod frame_size = 0 /\ kbit_rate = 0
    | sf_readf_int n => n = read_frames
    | _ => True
    end.
Proof.
  clear audio_format_init_checked audio_valid_sample_rate.
  intros Hfs Hrf Hfit Hscript.
  induction Hscript as [| r rest Hr _ IH]; simpl; intros e He.
  - by apply elem_of_nil in He.
  - destruct (Z.leb_spec (num_frames r) 0) as [|Hpos].
    { simpl in He. apply list_elem_of_singleton in He as ->. done. }
    assert (0 < num_frames r * frame_size <= sizeof_buffer) as Hlen by nia.
    assert (size_t (num_frames r * frame_size) = num_frames r * frame_size)
      as Hsz.
    { apply size_t_small. unfold SIZE_MAX, sizeof_buffer in *. lia. }
    destruct (decode_loop frame_size read_frames rest) as [events st].
    simpl in IH.
    assert (e = sf_readf_int read_frames \/
            e = decoder_data (size_t (num_frames r * frame_size)) 0 \/
            e = decoder_seek_where_frame \/
            (exists c, e = sf_seek c) \/
            e = decoder_seek_error \/ e = decoder_command_finished \/
            e ∈ events) as Hcases.
    { destruct (cmd r); simpl in He;
        rewrite ?elem_of_app, ?elem_of_cons, ?elem_of_nil in He;
        destruct (seek_result r <? 0); intuition (subst; eauto 10). }
    destruct Hcases as [-> | [-> | [-> | [[c ->] | [-> | [-> | Hin]]]]]];
      try done.
    + rewrite Hsz. split; [done|]. split; [|done].
      apply Z.mod_mul. lia.
    + by apply IH.
Qed.

(** X10.  When [audio_format_init_checked] only gives valid formats and
    [sf_readf_int] gives no more frames than it is asked for,
    [sndfile_stream_decode] never divides by zero, asks for at least one
    frame and for no more than [buffer] holds, and every [decoder_data]
    passes a positive whole number of frames within [sizeof(buffer)],
    with bit rate 0. *)
Theorem sndfile_stream_decode_data_fits_buffer opened info af script :
  (forall rate fmt ch af',
     audio_format_init_checked rate fmt ch = Some af' ->
     IsValid af' = true) ->
  opened = Some info ->
  audio_format_init_checked (samplerate info) AudioFormat.S32
    (channels info) = Some af ->
  Forall (fun r => num_frames r <= sizeof_buffer / GetFrameSize af) script ->
  (decode opened script).2 <> DividedByZero /\
  forall e, e ∈ (decode opened script).1 ->
    match e with
    | decoder_data len kbit_rate =>
        0 < len <= sizeof_buffer /\ len mod GetFrameSize af = 0 /\
        kbit_rate = 0
    | sf_readf_int n => 1 <= n /\ n * GetFrameSize af <= sizeof_buffer
    | _ => True
    end.
Proof.
  intros Hinit -> Haf Hscript.
  pose proof (IsValid_frame_size af (Hinit _ _ _ _ Haf)) as Hs.
  unfold sndfile_stream_decode. rewrite Haf. unfold size_div.
  destruct (Z.eqb_spec (GetFrameSize af) 0); [lia|].
  set (rf := sizeof_buffer / GetFrameSize af) in *.
  assert (1 <= rf) as Hrf.
  { apply Z.div_le_lower_bound; unfold sizeof_buffer; lia. }
  assert (rf * GetFrameSize af <= sizeof_buffer) as Hfit.
  { rewrite Z.mul_comm. apply Z.mul_div_le. lia. }
  pose proof (decode_loop_no_close (GetFrameSize af) rf script) as [_ Hst].
  pose proof (decode_loop_data (GetFrameSize af) rf script
                ltac:(lia) ltac:(lia) Hfit Hscript) as Hdata.
  destruct (decode_loop (GetFrameSize af) rf script) as [events st].
  simpl in *. split; [done|].
  intros e. rewrite elem_of_cons, elem_of_app.
  intros [-> | [He | He]]; [done | |].
  - specialize (Hdata e He). destruct e; try done. by subst.
  - destruct st; simpl in He.
    + by apply list_elem_of_singleton in He as ->.
    + by apply elem_of_nil in He.
    + by apply elem_of_nil in He.
Qed.

(** X11.  Once the file is open and the format accepted,
    [sndfile_stream_decode] goes on as long as frames arrive and the
    commands are [NONE] or [SEEK]; it returns at the first round in which
    no frames arrive or another command is given, and what it does is
    settled by the rounds up to that one. *)
Theorem sndfile_stream_decode_stops_at_first opened info af :
  opened = Some info ->
  audio_format_init_checked (samplerate info) AudioFormat.S32
    (channels info) = Some af ->
  GetFrameSize af <> 0 ->
  (forall script,
     Forall (fun r => stops r = false) script ->
     (decode opened script).2 = Waiting) /\
  (forall pre r rest,
     Forall (fun r => stops r = false) pre ->
     stops r = true ->
     decode opened (pre ++ r :: rest) = decode opened (pre ++ [r]) /\
     (decode opened (pre ++ r :: rest)).2 = Returned).
Proof.
  intros -> Haf Hfs. unfold sndfile_stream_decode. rewrite Haf.
  unfold size_div. destruct (Z.eqb_spec (GetFrameSize af) 0); [done|].
  set (rf := sizeof_buffer / GetFrameSize af). split.
  - intros script Hscript.
    pose proof (decode_loop_waits (GetFrameSize af) rf script Hscript).
    by destruct (decode_loop (GetFrameSize af) rf script).
  - intros pre r rest Hpre Hr.
    destruct (decode_loop_stops (GetFrameSize af) rf pre r rest Hpre Hr)
      as [-> Hst].
    split; [done|].
    by destruct (decode_loop (GetFrameSize af) rf (pre ++ [r])).
Qed.

(** X12.  [sndfile_stream_decode] closes the file exactly when its loop
    has come to its end, then once and as its last call; when the format
    is refused it returns after logging the error, without [sf_close]. *)
Theorem sndfile_stream_decode_close opened script :
  (forall info af,
     opened = Some info ->
     audio_format_init_checked (samplerate info) AudioFormat.S32
       (channels info) = Some af ->
     (decode opened script).2 = Returned ->
     last (decode opened script).1 = Some sf_close /\
     List.length (List.filter is_sf_close (decode opened script).1) = 1%nat)
  /\
  (forall info,
     opened = Some info ->
     audio_format_init_checked (samplerate info) AudioFormat.S32
       (channels info) = None ->
     decode opened script = ([LogError_audio_format], Returned)).
Proof.
  split.
  - intros info af -> Haf. unfold sndfile_stream_decode. rewrite Haf.
    unfold size_div. destruct (GetFrameSize af =? 0); [done|].
    pose proof (decode_loop_no_close (GetFrameSize af)
                  (sizeof_buffer / GetFrameSize af) script) as [Hc _].
    destruct (decode_loop _ _ script) as [events st]. simpl in *.
    intros ->. split.
    + by rewrite app_comm_cons, last_snoc.
    + by rewrite List.filter_app, Hc.
  - intros info -> Haf. unfold sndfile_stream_decode. by rewrite Haf.
Qed.

(** X13.  [sndfile_scan_stream] succeeds exactly when the file opens and
    its sample rate is valid; whenever the file opens it is closed exactly
    once; and a successful scan reports the duration first, then the tags
    of the strings that exist, each under the tag type that
    [sndfile_tags] pairs it with and in the order of that table, and
    closes the file last. *)
Theorem sndfile_scan_stream_result opened strings :
  (scan opened strings).2 = Returned ->
  ((scan opened strings).1.1 = true <->
   exists info, opened = Some info /\
     audio_valid_sample_rate (samplerate info) = true) /\
  (forall info, opened = Some info ->
     List.length (List.filter is_sf_close (scan opened strings).1.2)
     = 1%nat) /\
  (forall info, opened = Some info -> (scan opened strings).1.1 = true ->
     head (scan opened strings).1.2
     = Some (tag_handler_invoke_duration
               (SndfileVio.sf_count_t (frames info ÷ samplerate info))) /\
     last (scan opened strings).1.2 = Some sf_close /\
     reported_tags (scan opened strings).1.2
     = omap (fun i => pair i.2 <$> strings i.1) sndfile_tags).
Proof.
  unfold sndfile_scan_stream.
  destruct opened as [info|]; simpl.
  2: { intros _. split; [|done]. split; [done|]. by intros (? & ? & _). }
  destruct (audio_valid_sample_rate (samplerate info)) eqn:Hv; simpl.
  2: { intros _. split; [|done]. split; [done|].
       intros (info' & [= <-] & Hv'). congruence. }
  destruct (Z.eqb_spec (samplerate info) 0); simpl; [done|].
  intros _. split; [|split].
  - split; [eauto | done].
  - intros _ _.
    by destruct (strings SF_STR_TITLE), (strings SF_STR_ARTIST),
      (strings SF_STR_COMMENT), (strings SF_STR_DATE),
      (strings SF_STR_ALBUM), (strings SF_STR_TRACKNUMBER),
      (strings SF_STR_GENRE).
  - intros info' [= <-] _. split; [done|]. split.
    + by destruct (strings SF_STR_TITLE), (strings SF_STR_ARTIST),
        (strings SF_STR_COMMENT), (strings SF_STR_DATE),
        (strings SF_STR_ALBUM), (strings SF_STR_TRACKNUMBER),
        (strings SF_STR_GENRE).
    + by destruct (strings SF_STR_TITLE), (strings SF_STR_ARTIST),
        (strings SF_STR_COMMENT), (strings SF_STR_DATE),
        (strings SF_STR_ALBUM), (strings SF_STR_TRACKNUMBER),
        (strings SF_STR_GENRE).
Qed.

End SndfileDecoderProperties.

(** ** The mpg123 plugin *)

Lemma last_cons_Some {A} (a x : A) (l : list A) :
  last l = Some x -> last (a :: l) = Some x.
Proof. destruct l; [done|]. by intros <-. Qed.

Lemma last_app_Some {A} (x : A) (l1 l2 : list A) :
  last l2 = Some x -> last (l1 ++ l2) = Some x.
Proof. intros H. by rewrite last_app, H. Qed.

(** The last element of a list that ends in a known, non-empty list. *)
Ltac solve_last :=
  repeat first
    [ reflexivity | apply last_cons_Some | apply last_app_Some ].

Section Mpg123Properties.

Import DecoderAPI Mpg123Decoder.

Variable audio_format_init_checked :
  Z -> AudioFormat.SampleFormat -> Z -> option AudioFormat.

Local Abbreviation open := (mpd_mpg123_open audio_format_init_checked).
Local Abbreviation file_decode :=
  (mpd_mpg123_file_decode audio_format_init_checked).
Local Abbreviation scan_file :=
  (mpd_mpg123_scan_file audio_format_init_checked).

(** [mpd_mpg123_open] succeeds exactly when the two library calls do, the
    encoding is signed 16 bit and the format is accepted. *)
Lemma mpd_mpg123_open_Some a af :
  (open a).1 = Some af <->
  open_error a = MPG123_OK /\ getformat_error a = MPG123_OK /\
  encoding a = MPG123_ENC_SIGNED_16 /\
  audio_format_init_checked (rate a) AudioFormat.S16 (channels a) = Some af.
Proof.
  unfold mpd_mpg123_open.
  destruct (Z.eqb_spec (open_error a) MPG123_OK); simpl; [|intuition congruence].
  destruct (Z.eqb_spec (getformat_error a) MPG123_OK); simpl;
    [|intuition congruence].
  destruct (Z.eqb_spec (encoding a) MPG123_ENC_SIGNED_16); simpl;
    [|intuition congruence].
  destruct (audio_format_init_checked _ _ _); simpl; intuition congruence.
Qed.

(** [mpd_mpg123_open] never frees the handle, and every call it makes is
    on the library or on the log. *)
Lemma mpd_mpg123_open_no_delete a :
  List.filter is_mpg123_delete (open a).2 = [].
Proof.
  unfold mpd_mpg123_open.
  destruct (negb _); [done|]. destruct (negb _); [done|].
  destruct (negb _); [done|].
  by destruct (audio_format_init_checked _ _ _).
Qed.

Lemma decode_loop_no_delete st script :
  List.filter is_mpg123_delete (decode_loop st script).1 = [].
Proof.
  revert st. induction script as [| r rest IH]; intros st; simpl; [done|].
  destruct (negb (read_error r =? MPG123_OK)).
  { simpl. by destruct (negb _). }
  set (st' := match cur_vbr st with
              | MPG123_CBR => st
              | _ => updated_rate st (info_again r)
              end).
  specialize (IH st').
  destruct (cur_vbr st); fold st';
    destruct (decode_loop st' rest) as [events s]; simpl in *;
    destruct (cmd r); simpl; try done;
    destruct (seek_result r <? 0); simpl; done.
Qed.

(** In a constant bit rate stream the loop never asks for the frame
    information again and passes the one bit rate on. *)
Lemma decode_loop_CBR script : forall st,
  cur_vbr st = MPG123_CBR ->
  List.filter is_mpg123_info (decode_loop st script).1 = [] /\
  forall e, e ∈ (decode_loop st script).1 ->
    match e with
    | decoder_data _ kbit_rate => kbit_rate = cur_bitrate st
    | _ => True
    end.
Proof.
  induction script as [| r rest IH]; intros st Hst; simpl.
  { split; [done|]. intros e He. by apply elem_of_nil in He. }
  destruct (negb (read_error r =? MPG123_OK)).
  { destruct (negb (read_error r =? MPG123_DONE)); simpl;
      (split; [done|]); intros e;
      rewrite ?elem_of_cons, ?elem_of_nil; intuition (subst; done). }
  rewrite Hst. destruct (IH st Hst) as [IH1 IH2].
  destruct (decode_loop st rest) as [events s]. simpl in *.
  destruct (cmd r); [| destruct (seek_result r <? 0) |]; simpl.
  all: try (split; [done|]); intros e.
  all: rewrite ?elem_of_cons, ?elem_of_nil.
  all: intros He; intuition (subst; first [done | by apply IH2]).
Qed.

(** X14.  [mpd_mpg123_scan_file] succeeds exactly when [mpg123_new] gives
    a handle, [mpg123_open] and [mpg123_getformat] succeed, the encoding
    is signed 16 bit, the format is accepted and the file has a positive
    number of samples; it then reports, as its last call, the whole
    seconds of the samples at the sample rate of the format. *)
Theorem mpd_mpg123_scan_file_result a :
  (scan_file a).2 = Returned ->
  ((scan_file a).1.1 = true <->
   new_ok a = true /\
   open_error a = MPG123_OK /\ getformat_error a = MPG123_OK /\
   encoding a = MPG123_ENC_SIGNED_16 /\
   (exists af, audio_format_init_checked (rate a) AudioFormat.S16
                 (channels a) = Some af) /\
   0 < num_samples a) /\
  (forall af,
     (scan_file a).1.1 = true -> (open a).1 = Some af ->
     last (scan_file a).1.2
     = Some (tag_handler_invoke_duration
               (num_samples a ÷ Z.of_N (AudioFormat.sample_rate af)))).
Proof.
  unfold mpd_mpg123_scan_file.
  destruct (new_ok a); simpl; [|intros _; split; [intuition congruence|done]].
  pose proof (mpd_mpg123_open_Some a) as Hopen.
  destruct (open a) as [[af|] opening] eqn:Ho; simpl in *.
  - destruct (Hopen af) as [(H1 & H2 & H3 & H4) _]; [done|].
    destruct (Z.leb_spec (num_samples a) 0); simpl.
    { intros _. split; [|done]. split; [done|]. intros (_ & _ & _ & _ & _ & ?).
      lia. }
    destruct (Z.of_N (AudioFormat.sample_rate af) =? 0); simpl; [done|].
    intros _. split.
    + split; [|done]. intros _. eauto 10.
    + intros af' _ [= <-]. solve_last.
  - intros _. split; [|done]. split; [done|].
    intros (_ & H1 & H2 & H3 & [af H4] & _).
    destruct (Hopen af) as [_ Hsome]. by specialize (Hsome ltac:(auto)).
Qed.

(** X15.  Whenever [mpg123_new] gave a handle, [mpd_mpg123_scan_file]
    deletes it exactly once, as its last call on the library, on every
    path; and [mpd_mpg123_file_decode], once it returns, has deleted it
    exactly once, as its last call.  Without a handle neither calls
    [mpg123_delete]. *)
Theorem mpg123_handle_deleted_once a script :
  (new_ok a = true ->
   List.length (List.filter is_mpg123_delete (scan_file a).1.2) = 1%nat /\
   last (List.filter is_library_call (scan_file a).1.2)
   = Some mpg123_delete) /\
  (new_ok a = true -> (file_decode a script).2 = Returned ->
   List.length (List.filter is_mpg123_delete (file_decode a script).1)
   = 1%nat /\
   last (file_decode a script).1 = Some mpg123_delete) /\
  (new_ok a = false ->
   List.filter is_mpg123_delete (scan_file a).1.2 = [] /\
   List.filter is_mpg123_delete (file_decode a script).1 = []).
Proof.
  pose proof (mpd_mpg123_open_no_delete a) as Hnd.
  unfold mpd_mpg123_scan_file, mpd_mpg123_file_decode.
  split; [|split]; intros ->; simpl; [| |done].
  - destruct (open a) as [[af|] opening]; simpl in *.
    + destruct (num_samples a <=? 0); [|destruct (_ =? 0)]; simpl;
        rewrite !List.filter_app, ?Hnd; simpl; (split; [done|]);
        solve_last.
    + rewrite !List.filter_app, Hnd. simpl. split; [done|]. solve_last.
  - destruct (open a) as [[af|] opening]; simpl in *.
    + pose proof (decode_loop_no_delete (initial_rate (info a)) script)
        as Hl.
      destruct (decode_loop _ script) as [events s]. simpl in *.
      intros ->. rewrite List.filter_app, Hnd. simpl.
      rewrite List.filter_app, Hl. simpl.
      split; [done|]. solve_last.
    + intros _. rewrite List.filter_app, Hnd. simpl. split; [done|].
      solve_last.
Qed.

(** X16.  When the first [mpg123_info] fails or reports a constant bit
    rate, [mpd_mpg123_file_decode] never asks for the frame information
    again, and every [decoder_data] carries the same bit rate: the one
    reported, or 0 after the failure. *)
Theorem mpg123_CBR_bit_rate_fixed a af script :
  new_ok a = true ->
  (open a).1 = Some af ->
  cur_vbr (initial_rate (info a)) = MPG123_CBR ->
  List.length (List.filter is_mpg123_info (file_decode a script).1)
  = 1%nat /\
  (forall n k, decoder_data n k ∈ (file_decode a script).1 ->
     k = match info a with Some i => bitrate i | None => 0 end).
Proof.
  intros Hnew Hopen Hcbr. unfold mpd_mpg123_file_decode. rewrite Hnew.
  simpl.
  assert (List.filter is_mpg123_info (open a).2 = [] /\
          forall n k, decoder_data n k ∉ (open a).2) as [Hi Hd].
  { unfold mpd_mpg123_open.
    destruct (negb _); [|destruct (negb _); [|destruct (negb _);
      [|destruct (audio_format_init_checked _ _ _)]]]; simpl.
    all: split; [done|]; intros n k Hin.
    all: repeat (apply elem_of_cons in Hin as [Hin | Hin]; [done|]).
    all: by apply elem_of_nil in Hin. }
  destruct (open a) as [[af'|] opening]; simpl in *; [|done].
  destruct (decode_loop_CBR script _ Hcbr) as [Hl1 Hl2].
  assert (cur_bitrate (initial_rate (info a))
          = match info a with Some i => bitrate i | None => 0 end) as Hb.
  { destruct (info a) as [i|]; [|done]. simpl in *.
    by destruct (vbr i). }
  destruct (decode_loop _ script) as [events s]. simpl in *.
  split.
  - rewrite List.filter_app, Hi. simpl. rewrite List.filter_app, Hl1.
    by destruct s.
  - intros n k. rewrite elem_of_cons, elem_of_app.
    intros [? | [He | He]]; [done | by apply Hd in He |].
    rewrite !elem_of_cons, elem_of_app in He.
    destruct He as [? | [? | [? | [He | He]]]]; try done.
    + rewrite <- Hb. by apply (Hl2 _ He).
    + destruct s; simpl in He.
      * by apply list_elem_of_singleton in He.
      * by apply elem_of_nil in He.
      * by apply elem_of_nil in He.
Qed.

(** X17.  For a stream that is not of constant bit rate, the bit rate and
    the average bit rate of the first [mpg123_info] are never used: the
    loop asks again before each [decoder_data], which carries the bit
    rate of that answer, or 0 when the call fails. *)
Theorem mpg123_first_rates_unused i1 i2 script :
  vbr i1 = vbr i2 ->
  vbr i1 <> MPG123_CBR ->
  decode_loop (initial_rate (Some i1)) script
  = decode_loop (initial_rate (Some i2)) script /\
  (forall r rest, script = r :: rest -> read_error r = MPG123_OK ->
   exists tail,
     (decode_loop (initial_rate (Some i1)) script).1
     = mpg123_read :: mpg123_info
       :: decoder_data (nbytes r)
            (match info_again r with Some i => bitrate i | None => 0 end)
       :: tail).
Proof.
  intros Hv Hne. split.
  - destruct script as [| r rest]; [done|]. simpl.
    destruct (negb (read_error r =? MPG123_OK)); [done|].
    rewrite <- Hv.
    destruct (vbr i1) eqn:H1; [done | |]; simpl;
      by destruct (info_again r).
  - intros r rest -> Hr. simpl. rewrite Hr. simpl.
    destruct (vbr i1) eqn:H1; [done | |]; simpl;
      destruct (info_again r) as [i|]; simpl;
      destruct (decode_loop _ rest) as [events s];
      destruct (cmd r); simpl; eauto.
Qed.

End Mpg123Properties.

(** ** The further properties at concrete inputs *)

Lemma Expand_within_region_returns_witness :
  exists c2,
    MusicChunk.Expand 4096 Debug (cd_chunk 4088) cd_stereo 8
    = Returns (true, c2).
Proof.
  apply (Expand_within_region_returns 4096 capacity_4096 Debug
           (cd_chunk 4088) cd_stereo 9 320 4088 8 (cd_chunk 4088)).
  - simpl. lia.
  - reflexivity.
  - reflexivity.
Defined.

Lemma Expand_flag_foretells_Write_witness :
  exists buf c'',
    MusicChunk.Write 4096 Debug (cd_chunk 4096) cd_stereo 9 320
    = Returns (buf, c'') /\
    (true = true <-> buf = Null).
Proof.
  apply (Expand_flag_foretells_Write 4096 capacity_4096 Debug
           (cd_chunk 4088) cd_stereo 8 true (cd_chunk 4096)).
  - simpl. lia.
  - lia.
  - simpl. lia.
  - reflexivity.
  - reflexivity.
  - reflexivity.
Defined.

Lemma Debug_Expand_rejects_overrun_witness :
  MusicChunk.Expand 4096 Debug (cd_chunk 4088) cd_stereo 12
  = AssertionFailed.
Proof.
  apply (Debug_Expand_rejects_overrun 4096 (cd_chunk 4088) cd_stereo 12).
  - simpl. lia.
  - lia.
  - unfold SIZE_MAX. simpl. lia.
Defined.


Lemma sndfile_vio_read_all_or_nothing_witness :
  (SndfileVio.sndfile_vio_read ExampleStream.decoder_read_full 10
     (ExampleStream.reader 0 (Some 100))).1.1 = 10.
Proof.
  destruct (sndfile_vio_read_all_or_nothing ExampleStream.decoder_read_full
              (ExampleStream.reader 0 (Some 100)) 10) as [Hr _].
  - unfold SndfileVio.INT64_MIN, SndfileVio.INT64_MAX. lia.
  - exact Hr.
Defined.

Lemma sndfile_vio_seek_refuses_witness :
  SndfileVio.sndfile_vio_seek ExampleStream.offset_type
    ExampleStream.KnownSize ExampleStream.GetSize ExampleStream.GetOffset
    ExampleStream.LockSeek (-4) SndfileVio.SEEK_END
    (ExampleStream.reader 10 None)
  = (-1, ExampleStream.reader 10 None, []).
Proof.
  apply sndfile_vio_seek_refuses. right. split; reflexivity.
Defined.

Lemma sndfile_vio_seek_relative_is_absolute_witness :
  SndfileVio.sndfile_vio_seek ExampleStream.offset_type
    ExampleStream.KnownSize ExampleStream.GetSize ExampleStream.GetOffset
    ExampleStream.LockSeek (-4) SndfileVio.SEEK_END
    (ExampleStream.reader 10 (Some 100))
  = SndfileVio.sndfile_vio_seek ExampleStream.offset_type
      ExampleStream.KnownSize ExampleStream.GetSize ExampleStream.GetOffset
      ExampleStream.LockSeek 96 SndfileVio.SEEK_SET
      (ExampleStream.reader 10 (Some 100)).
Proof.
  destruct (sndfile_vio_seek_relative_is_absolute ExampleStream.offset_type
              ExampleStream.KnownSize ExampleStream.GetSize
              ExampleStream.GetOffset ExampleStream.LockSeek
              (ExampleStream.reader 10 (Some 100)) (-4)) as [_ Hend].
  - reflexivity.
  - apply Hend; [reflexivity|]. vm_compute. split; discriminate.
Defined.

Lemma sndfile_vio_seek_agrees_with_tell_witness :
  96 = SndfileVio.sndfile_vio_tell ExampleStream.GetOffset
         (ExampleStream.reader 96 (Some 100)).
Proof.
  destruct (sndfile_vio_seek_agrees_with_tell ExampleStream.offset_type
              ExampleStream.KnownSize ExampleStream.GetSize
              ExampleStream.GetOffset ExampleStream.LockSeek
              (ExampleStream.reader 10 (Some 100))
              (ExampleStream.reader 96 (Some 100))
              (-4) SndfileVio.SEEK_END 96 []) as [Htell _].
  - reflexivity.
  - discriminate.
  - exact Htell.
Defined.

Lemma example_init_valid rate fmt ch af :
  ExamplePlugin.audio_format_init_checked rate fmt ch = Some af ->
  IsValid af = true.
Proof.
  unfold ExamplePlugin.audio_format_init_checked.
  destruct (IsValid _) eqn:Hv; [|discriminate].
  intros H. injection H as <-. exact Hv.
Defined.

Lemma sndfile_stream_decode_data_fits_buffer_witness :
  (SndfileDecoder.sndfile_stream_decode
     ExamplePlugin.audio_format_init_checked (Some ExamplePlugin.wav_info)
     [ExamplePlugin.sf_data; ExamplePlugin.sf_seeking; ExamplePlugin.sf_eof]).2
  <> SndfileDecoder.DividedByZero /\
  (0 < 16384 <= SndfileDecoder.sizeof_buffer /\
   16384 mod GetFrameSize ExamplePlugin.s32_stereo = 0 /\ 0 = 0).
Proof.
  destruct (sndfile_stream_decode_data_fits_buffer
              ExamplePlugin.audio_format_init_checked
              (Some ExamplePlugin.wav_info) ExamplePlugin.wav_info
              ExamplePlugin.s32_stereo
              [ExamplePlugin.sf_data; ExamplePlugin.sf_seeking;
               ExamplePlugin.sf_eof])
    as [Hst Hev].
  - exact example_init_valid.
  - reflexivity.
  - reflexivity.
  - repeat constructor; vm_compute; discriminate.
  - split; [exact Hst|].
    apply (Hev (SndfileDecoder.decoder_data 16384 0)).
    vm_compute. apply list_elem_of_further, list_elem_of_further.
    apply list_elem_of_here.
Defined.

Lemma sndfile_stream_decode_stops_at_first_witness :
  (SndfileDecoder.sndfile_stream_decode
     ExamplePlugin.audio_format_init_checked (Some ExamplePlugin.wav_info)
     [ExamplePlugin.sf_data; ExamplePlugin.sf_seeking]).2
  = SndfileDecoder.Waiting /\
  SndfileDecoder.sndfile_stream_decode
    ExamplePlugin.audio_format_init_checked (Some ExamplePlugin.wav_info)
    ([ExamplePlugin.sf_data; ExamplePlugin.sf_seeking]
       ++ ExamplePlugin.sf_eof :: [ExamplePlugin.sf_data])
  = SndfileDecoder.sndfile_stream_decode
      ExamplePlugin.audio_format_init_checked (Some ExamplePlugin.wav_info)
      ([ExamplePlugin.sf_data; ExamplePlugin.sf_seeking]
         ++ [ExamplePlugin.sf_eof]).
Proof.
  destruct (sndfile_stream_decode_stops_at_first
              ExamplePlugin.audio_format_init_checked
              (Some ExamplePlugin.wav_info) ExamplePlugin.wav_info
              ExamplePlugin.s32_stereo)
    as [Hwait Hstop].
  - reflexivity.
  - reflexivity.
  - vm_compute. discriminate.
  - split.
    + apply Hwait. repeat constructor.
    + apply Hstop; [repeat constructor | reflexivity].
Defined.

Lemma sndfile_scan_stream_result_witness :
  SndfileDecoder.reported_tags
    (SndfileDecoder.sndfile_scan_stream
       ExamplePlugin.audio_valid_sample_rate (Some ExamplePlugin.wav_info)
       ExamplePlugin.two_strings).1.2
  = [(SndfileDecoder.TAG_TITLE, [Byte.x54]);
     (SndfileDecoder.TAG_ARTIST, [Byte.x41])].
Proof.
  destruct (sndfile_scan_stream_result
              ExamplePlugin.audio_valid_sample_rate
              (Some ExamplePlugin.wav_info) ExamplePlugin.two_strings)
    as (_ & _ & Htags).
  - reflexivity.
  - destruct (Htags ExamplePlugin.wav_info) as (_ & _ & ->);
      reflexivity.
Defined.

Lemma mpd_mpg123_scan_file_result_witness :
  last (Mpg123Decoder.mpd_mpg123_scan_file
          ExamplePlugin.audio_format_init_checked ExamplePlugin.mp3_file).1.2
  = Some (Mpg123Decoder.tag_handler_invoke_duration 10).
Proof.
  destruct (mpd_mpg123_scan_file_result
              ExamplePlugin.audio_format_init_checked ExamplePlugin.mp3_file)
    as [_ Hlast].
  - reflexivity.
  - apply (Hlast ExamplePlugin.s16_stereo); reflexivity.
Defined.

Lemma mpg123_CBR_bit_rate_fixed_witness :
  List.length
    (List.filter Mpg123Decoder.is_mpg123_info
       (Mpg123Decoder.mpd_mpg123_file_decode
          ExamplePlugin.audio_format_init_checked ExamplePlugin.mp3_file
          [ExamplePlugin.mp3_data None; ExamplePlugin.mp3_done]).1)
  = 1%nat.
Proof.
  apply (mpg123_CBR_bit_rate_fixed ExamplePlugin.audio_format_init_checked
           ExamplePlugin.mp3_file ExamplePlugin.s16_stereo).
  - reflexivity.
  - reflexivity.
  - reflexivity.
Defined.

Lemma mpg123_first_rates_unused_witness :
  Mpg123Decoder.decode_loop
    (Mpg123Decoder.initial_rate (Some (ExamplePlugin.abr_info 0 192)))
    [ExamplePlugin.mp3_data (Some (ExamplePlugin.abr_info 160 192))]
  = Mpg123Decoder.decode_loop
      (Mpg123Decoder.initial_rate (Some (ExamplePlugin.abr_info 999 64)))
      [ExamplePlugin.mp3_data (Some (ExamplePlugin.abr_info 160 192))].
Proof.
  apply (mpg123_first_rates_unused (ExamplePlugin.abr_info 0 192)
           (ExamplePlugin.abr_info 999 64)).
  - reflexivity.
  - discriminate.
Defined.
